(** * ThemeData: schema-driven loading of EmulationStation theme documents

  A shallow embedding of [src/ThemeData.cpp] and [src/ThemeData.h].

  - C strings ([const char*], [std::string]) are [string]s; a pointer that
    may be null is an [option string].
  - [float] is IEEE-754 binary32 and [double] binary64, both carried by the
    Standard Library's [spec_float].
  - [unsigned int] is a [Z] with the 32-bit wrap-around written out.
  - [std::map<std::string, T>] is a [gmap string T].
  - A member function that throws or mutates [*this] runs in the monad [M]
    over the object and the global log; a thrown [ThemeException] leaves
    every mutation made before the [throw] in place.
  - Library calls whose code is not part of ThemeData.cpp ([strtod],
    [operator>>] with [std::hex], [fs::exists], [xml_document::load_file],
    [getHomePath], [path::parent_path]) are [Variable]s of the section. *)

From Stdlib Require Import ZArith String Ascii List Bool Lia.
From Stdlib Require Import Floats.SpecFloat.
From stdpp Require Import base option gmap strings list.

Local Open Scope string_scope.

(** ** C strings *)

Module CStr.

(** [std::string::find(char)]: index of the first occurrence. *)
Fixpoint find (c : ascii) (s : string) : option nat :=
  match s with
  | EmptyString => None
  | String a s' => if Ascii.eqb a c then Some 0 else S <$> find c s'
  end.

(** [str.substr(pos, n)] and [str.substr(pos, npos)]. *)
Definition substr (s : string) (pos n : nat) : string := String.substring pos n s.
Definition substr_from (s : string) (pos : nat) : string :=
  String.substring pos (String.length s - pos) s.

(** [in + 1] for a non-empty C string: the string behind its first char. *)
Definition advance (s : string) : string :=
  match s with
  | EmptyString => EmptyString
  | String _ s' => s'
  end.

(** [in[0]], the terminating NUL for the empty string. *)
Definition first_char (s : string) : ascii :=
  match s with
  | EmptyString => Ascii.zero
  | String a _ => a
  end.

Definition contains (c : ascii) (s : string) : bool :=
  match find c s with Some _ => true | None => false end.

End CStr.

(** ** Floating point: binary32 values and the conversions the code performs *)

Module F32.

Definition float := spec_float.

Definition prec : Z := 24.
Definition emax : Z := 128.

(** Conversion of an [int] constant to [float] (exact for the constants
    used here). *)
Definition of_int (z : Z) : float := binary_normalize prec emax z 0 false.

(** The cast [(float)d] of a [double], round to nearest even. *)
Definition of_double (d : spec_float) : float :=
  match d with
  | S754_finite s m e => binary_round prec emax s m e
  | _ => d
  end.

Definition eqb (x y : float) : bool := SFeqb x y.
Definition ltb (x y : float) : bool := SFltb x y.

Definition zero : float := S754_zero false.

End F32.

(** ** pugixml: the part of the DOM interface ThemeData.cpp uses *)

(** Modelled from the spec: the document tree (theme, views, elements,
    properties, attributes, text content) that the parser walks.  The
    repository bundles pugixml under [pugiXML/], outside the sources embedded
    here; the accessors below follow the calls ThemeData.cpp makes
    ([child], [next_sibling], [attribute], [text], [as_string], [as_bool]). *)
Module Pugi.

(** Nodes a default parse keeps: elements and character data. *)
#[warnings="-register-all"]
Inductive xml_node :=
| Element (name : string) (attributes : list (string * string)) (children : list xml_node)
| PCData (value : string)
| CData (value : string).

(** A node handle may be null. *)
Definition handle := option xml_node.

(** [xml_node::name()]: the tag of an element, the empty string otherwise. *)
Definition name (n : xml_node) : string :=
  match n with
  | Element nm _ _ => nm
  | _ => ""
  end.

Definition children (n : xml_node) : list xml_node :=
  match n with
  | Element _ _ cs => cs
  | _ => []
  end.

Definition attributes (n : xml_node) : list (string * string) :=
  match n with
  | Element _ as_ _ => as_
  | _ => []
  end.

Definition is_text_node (n : xml_node) : bool :=
  match n with
  | Element _ _ _ => false
  | _ => true
  end.

Definition value (n : xml_node) : string :=
  match n with
  | Element _ _ _ => ""
  | PCData v | CData v => v
  end.

Definition has_name (nm : string) (n : xml_node) : bool := String.eqb (name n) nm.

(** [first_child named nm] among a list of siblings: [xml_node::child(nm)]
    and the start of a [next_sibling(nm)] walk. *)
Definition find_child (nm : string) (cs : list xml_node) : handle :=
  List.find (has_name nm) cs.

Definition child (n : xml_node) (nm : string) : handle := find_child nm (children n).

(** The nodes visited by
    [for (n = root.child(nm); n; n = n.next_sibling(nm))]. *)
Definition children_named (n : xml_node) (nm : string) : list xml_node :=
  List.filter (has_name nm) (children n).

(** [xml_node::attribute(nm)]: the value of the first attribute of that
    name, a null handle if there is none. *)
Fixpoint lookup_attribute (nm : string) (l : list (string * string)) : option string :=
  match l with
  | [] => None
  | (k, v) :: l' => if String.eqb k nm then Some v else lookup_attribute nm l'
  end.

Definition attribute (n : xml_node) (nm : string) : option string :=
  lookup_attribute nm (attributes n).

(** [xml_text::_data()]: the node itself when it is character data, its
    first character-data child otherwise; null for a null handle. *)
Definition text (h : handle) : handle :=
  match h with
  | None => None
  | Some n => if is_text_node n then Some n else List.find is_text_node (children n)
  end.

Definition text_get (h : handle) : string :=
  match text h with
  | Some d => value d
  | None => ""
  end.

Definition text_as_string (h : handle) : string := text_get h.

(** [get_value_bool]: true when the first character is one of [1tTyY]. *)
Definition get_value_bool (v : string) : bool :=
  match v with
  | String ("1" | "t" | "T" | "y" | "Y")%char _ => true
  | _ => false
  end.

Definition text_as_bool (h : handle) : bool :=
  match text h with
  | Some d => get_value_bool (value d)
  | None => false
  end.

Definition attribute_as_bool (a : option string) (def : bool) : bool :=
  match a with
  | Some v => get_value_bool v
  | None => def
  end.

Definition attribute_as_string (a : option string) : string := default "" a.

(** The result of [xml_document::load_file]: the top-level nodes of the
    document, or the description of the syntax error. *)
Inductive xml_parse_result :=
| ParseOk (doc : list xml_node)
| ParseError (description : string).

End Pugi.

(** ** Data model (ThemeData.h) *)

Inductive ElementPropertyType :=
| NORMALIZED_PAIR
| PATH
| STRING
| COLOR
| FLOAT
| BOOLEAN.

#[global] Instance ElementPropertyType_eq_dec : EqDecision ElementPropertyType.
Proof. solve_decision. Defined.

(** [boost::variant<Eigen::Vector2f, std::string, unsigned int, float, bool>] *)
Inductive PropertyValue :=
| VVector2f (x y : F32.float)
| VString (s : string)
| VUInt (u : Z)
| VFloat (f : F32.float)
| VBool (b : bool).

(** [class ThemeElement]; [type] is declared but never assigned by the
    parser, so it keeps its default, the empty string. *)
Record ThemeElement := mkThemeElement {
  extra : bool;
  type : string;
  properties : gmap string PropertyValue
}.

(** [class ThemeView]; the cache of extras ([mExtrasDirty], [mExtras]) is
    only touched by [getExtras], which is outside ThemeData.cpp's loading
    code, and a freshly built view always has it dirty and empty. *)
Record ThemeView := mkThemeView {
  elements : gmap string ThemeElement
}.

(** The fields of [class ThemeData] that loading reads or writes. *)
Record ThemeData := mkThemeData {
  mPath : string;
  mVersion : F32.float;
  mViews : gmap string ThemeView
}.

(** [ThemeData::ThemeData()] *)
Definition ThemeData_new : ThemeData :=
  {| mPath := ""; mVersion := F32.of_int 0; mViews := ∅ |}.

(** [sElementMap]: the schema registry. *)
Definition sElementMap : gmap string (gmap string ElementPropertyType) :=
  list_to_map [
    ("image", list_to_map [
      ("pos", NORMALIZED_PAIR);
      ("size", NORMALIZED_PAIR);
      ("origin", NORMALIZED_PAIR);
      ("path", PATH);
      ("tile", BOOLEAN)]);
    ("text", list_to_map [
      ("pos", NORMALIZED_PAIR);
      ("size", NORMALIZED_PAIR);
      ("text", STRING);
      ("color", COLOR);
      ("fontPath", PATH);
      ("fontSize", FLOAT);
      ("center", BOOLEAN)]);
    ("textlist", list_to_map [
      ("pos", NORMALIZED_PAIR);
      ("size", NORMALIZED_PAIR);
      ("selectorColor", COLOR);
      ("selectedColor", COLOR);
      ("primaryColor", COLOR);
      ("secondaryColor", COLOR);
      ("fontPath", PATH);
      ("fontSize", FLOAT)]);
    ("sound", list_to_map [
      ("path", PATH)])].

Definition MINIMUM_THEME_VERSION : Z := 3.
Definition CURRENT_THEME_VERSION : Z := 3.

(** The accessors of [class ThemeElement]. *)
Module Element.

(** The alternatives of the variant, in the order of its declaration. *)
Inductive VariantType := TVector2f | TString | TUnsigned | TFloat | TBool.

#[global] Instance VariantType_eq_dec : EqDecision VariantType.
Proof. solve_decision. Defined.

(** The alternative a variant currently holds. *)
Definition which (v : PropertyValue) : VariantType :=
  match v with
  | VVector2f _ _ => TVector2f
  | VString _ => TString
  | VUInt _ => TUnsigned
  | VFloat _ => TFloat
  | VBool _ => TBool
  end.

(** What [get<T>(prop)] evaluates to: the value, or the exception of
    [std::map::at] or of [boost::get]. *)
Inductive GetOutcome :=
| Got (v : PropertyValue)
| out_of_range
| bad_get.

(** [T get(const std::string& prop)]:
    [boost::get<T>(properties.at(prop))]. *)
Definition get (T : VariantType) (el : ThemeElement) (prop : string) : GetOutcome :=
  match properties el !! prop with
  | None => out_of_range
  | Some v => if decide (which v = T) then Got v else bad_get
  end.

(** [bool has(const std::string& prop)] *)
Definition has (el : ThemeElement) (prop : string) : bool :=
  match properties el !! prop with
  | Some _ => true
  | None => false
  end.

(** The C++ type in which [parseElement] stores a property of a declared
    type. *)
Definition stored_as (ty : ElementPropertyType) : VariantType :=
  match ty with
  | NORMALIZED_PAIR => TVector2f
  | PATH => TString
  | STRING => TString
  | COLOR => TUnsigned
  | FLOAT => TFloat
  | BOOLEAN => TBool
  end.

End Element.

(** ** ThemeException *)

(** What is streamed into the exception after the file prefix: one
    constructor per [throw] of ThemeData.cpp, with the values it prints. *)
Inductive ThemeMessage :=
| MissingFile
| XmlParsingError (description : string)
| MissingThemeTag
| VersionTagMissing (current : Z)
| VersionTooOld (actual : F32.float) (minimum : Z)
| ViewMissingName
| ElementMissingName (node_name : string)
| UnknownElement (node_name : string)
| UnknownPropertyType (node_name root_name : string)
| InvalidNormalizedPair (str : string)
| EmptyColor
| InvalidColorLength (str : string)
| UnknownElementPropertyType (element_name node_name : string).

(** [msg] of a [ThemeException]: the prefix written by [setFile], when it was
    called, followed by the message. *)
Record ThemeException := mkThemeException {
  exc_file : option string;
  exc_what : ThemeMessage
}.

(** [ThemeException error; error.setFile(path); throw error << m] *)
Definition error_in (path : string) (m : ThemeMessage) : ThemeException :=
  {| exc_file := Some path; exc_what := m |}.

(** [ThemeException error; throw error << m] *)
Definition error_bare (m : ThemeMessage) : ThemeException :=
  {| exc_file := None; exc_what := m |}.

(** ** Throwing, mutating code *)

(** A line written with [LOG(LogWarning)]. *)
Record LogWarning := mkLogWarning {
  warn_theme : string;
  warn_token : string;
  warn_resolved : string
}.

Record State := mkState {
  self : ThemeData;
  log : list LogWarning
}.

(** The state of a load of [path] once the version [v] has been read: the
    views are cleared, the log is the one of the state the load started in. *)
Definition opened (path : string) (v : F32.float) (s : State) : State :=
  {| self := {| mPath := path; mVersion := v; mViews := ∅ |}; log := log s |}.

(** States holding the same theme object. *)
Definition same_theme (s1 s2 : State) : Prop := self s1 = self s2.

(** States of a theme loaded from the same file. *)
Definition same_path (s1 s2 : State) : Prop := mPath (self s1) = mPath (self s2).

Inductive Result (A : Type) :=
| Ok (a : A)
| Throw (e : ThemeException).
Arguments Ok {A} a.
Arguments Throw {A} e.

Definition M (A : Type) : Type := State -> Result A * State.

Definition ret {A} (a : A) : M A := fun s => (Ok a, s).
Definition throw {A} (e : ThemeException) : M A := fun s => (Throw e, s).
Definition bind {A B} (m : M A) (k : A -> M B) : M B :=
  fun s => match m s with
           | (Ok a, s') => k a s'
           | (Throw e, s') => (Throw e, s')
           end.
Definition gets {A} (f : ThemeData -> A) : M A := fun s => (Ok (f (self s)), s).
Definition modify (f : ThemeData -> ThemeData) : M unit :=
  fun s => (Ok tt, {| self := f (self s); log := log s |}).
Definition warn (w : LogWarning) : M unit :=
  fun s => (Ok tt, {| self := self s; log := log s ++ [w] |}).
(** A function that only throws, lifted into [M]. *)
Definition lift {A} (r : Result A) : M A := fun s => (r, s).

#[global] Instance M_ret : MRet M := @ret.
#[global] Instance M_bind : MBind M := fun A B k m => bind m k.

(** [for (node = first; node; node = next) body], the loop variable being
    threaded through [acc]. *)
Fixpoint for_each {A B} (body : B -> A -> M A) (l : list B) (acc : A) : M A :=
  match l with
  | [] => ret acc
  | x :: l' => acc' ← body x acc; for_each body l' acc'
  end.

Definition set_mPath (p : string) (t : ThemeData) : ThemeData :=
  {| mPath := p; mVersion := mVersion t; mViews := mViews t |}.
Definition set_mVersion (v : F32.float) (t : ThemeData) : ThemeData :=
  {| mPath := mPath t; mVersion := v; mViews := mViews t |}.
Definition set_mViews (vs : gmap string ThemeView) (t : ThemeData) : ThemeData :=
  {| mPath := mPath t; mVersion := mVersion t; mViews := vs |}.
Definition set_property (k : string) (v : PropertyValue) (e : ThemeElement) : ThemeElement :=
  {| extra := extra e; type := type e; properties := <[k := v]> (properties e) |}.
Definition set_element (k : string) (e : ThemeElement) (v : ThemeView) : ThemeView :=
  {| elements := <[k := e]> (elements v) |}.

(** ** Boost.Filesystem paths *)

(** Path operations of Boost.Filesystem (version 3, POSIX API, where the
    native and the generic format coincide and [/] is the only separator),
    on the path's string. *)
Module BoostFs.

Definition is_separator (c : ascii) : bool := Ascii.eqb c "/".

(** The characters before the first separator. *)
Fixpoint take_name (s : string) : string :=
  match s with
  | EmptyString => EmptyString
  | String c s' => if is_separator c then EmptyString else String c (take_name s')
  end.

(** [*path.begin()]: a network name [//name], the root directory [/], or the
    plain name up to the first separator. *)
Definition first_element (src : string) : string :=
  match src with
  | EmptyString => EmptyString
  | String c0 rest0 =>
      if is_separator c0 then
        match rest0 with
        | String c1 rest1 =>
            if is_separator c1 then
              match rest1 with
              | EmptyString => "//"
              | String c2 _ =>
                  if is_separator c2 then "/" else "//" ++ take_name rest1
              end
            else "/"
        | EmptyString => "/"
        end
      else take_name src
  end.

Fixpoint last_char (s : string) : ascii :=
  match s with
  | EmptyString => Ascii.zero
  | String c EmptyString => c
  | String _ s' => last_char s'
  end.

(** [lhs / rhs]: nothing is appended for an empty [rhs]; a separator is
    inserted unless [rhs] starts with one, or [lhs] is empty or ends with
    one. *)
Definition append (lhs rhs : string) : string :=
  match rhs with
  | EmptyString => lhs
  | String c _ =>
      if is_separator c then lhs ++ rhs
      else if String.eqb lhs "" || is_separator (last_char lhs) then lhs ++ rhs
      else lhs ++ "/" ++ rhs
  end.

(** [path::generic_string()] *)
Definition generic_string (p : string) : string := p.

End BoostFs.

(** What a call evaluates to when the C++ standard may leave it without a
    defined result. *)
Inductive Outcome (A : Type) :=
| Returns (a : A)
| Undefined.
Arguments Returns {A} a.
Arguments Undefined {A}.

(** The [std::string] constructor taking a [const char*]: undefined for a
    null pointer. *)
Definition string_of_cstr (p : option string) : Outcome string :=
  match p with
  | Some s => Returns s
  | None => Undefined
  end.

(** Truncation of a value to [unsigned int]. *)
Definition wrap32 (z : Z) : Z := (z mod 2 ^ 32)%Z.

(** ** ThemeData.cpp *)

Section ThemeData.

(** [strtod(s, 0)], also behind [atof]. *)
Variable strtod : string -> spec_float.
(** The value [ss << str; ss >> std::hex >> val] leaves in [val]. *)
Variable istream_hex : string -> Z.
(** [fs::exists] *)
Variable fs_exists : string -> bool.
(** [xml_document::load_file] *)
Variable load_file : string -> Pugi.xml_parse_result.
(** [getHomePath()] *)
Variable getHomePath : string.
(** [path::parent_path()] *)
Variable parent_path : string -> string.

Definition atof (s : string) : spec_float := strtod s.

(** [xml_text::as_float(def)]: [(float)strtod(value, 0)], [def] when there is
    no character data. *)
Definition text_as_float (h : Pugi.handle) (def : F32.float) : F32.float :=
  match Pugi.text h with
  | Some d => F32.of_double (strtod (Pugi.value d))
  | None => def
  end.

(** [unsigned int getHexColor(const char* str)] *)
Definition getHexColor (str : option string) : Result Z :=
  match str with
  | None => Throw (error_bare EmptyColor)
  | Some s =>
      let len := String.length s in
      if negb (len =? 6)%nat && negb (len =? 8)%nat then
        Throw (error_bare (InvalidColorLength s))
      else
        let val := wrap32 (istream_hex s) in
        let val := if (len =? 6)%nat
                   then Z.lor (wrap32 (Z.shiftl val 8)) 255
                   else val in
        Ok val
  end.

(** [resolvePath] once [in] is known to be non-null. *)
Definition resolvePath_str (s : string) (relative : string) : string :=
  if Ascii.eqb (CStr.first_char s) Ascii.zero then s
  else
    let relPath := parent_path relative in
    let path := s in
    let path :=
      if String.eqb (BoostFs.first_element path) "~" then
        getHomePath ++ CStr.advance s
      else if String.eqb (BoostFs.first_element path) "." then
        BoostFs.append relPath (CStr.advance s)
      else path in
    BoostFs.generic_string path.

(** [std::string resolvePath(const char* in, const fs::path& relative)].
    For a null [in] the function executes [return in;], which builds the
    returned [std::string] from the null pointer. *)
Definition resolvePath (in_ : option string) (relative : string) : Outcome string :=
  match in_ with
  | None => string_of_cstr in_
  | Some s => Returns (resolvePath_str s relative)
  end.

(** The body of the loop of [ThemeData::parseElement]: one property child. *)
Definition parseProperty (root : Pugi.xml_node)
    (typeMap : gmap string ElementPropertyType)
    (node : Pugi.xml_node) (element : ThemeElement) : M ThemeElement :=
  path ← gets mPath;
  match typeMap !! Pugi.name node with
  | None => throw (error_in path (UnknownPropertyType (Pugi.name node) (Pugi.name root)))
  | Some ty =>
      match ty with
      | NORMALIZED_PAIR =>
          let str := Pugi.text_as_string (Some node) in
          match CStr.find " " str with
          | None => throw (error_in path (InvalidNormalizedPair str))
          | Some divider =>
              let first := CStr.substr str 0 divider in
              let second := CStr.substr_from str divider in
              let val := VVector2f (F32.of_double (atof first)) (F32.of_double (atof second)) in
              mret (set_property (Pugi.name node) val element)
          end
      | STRING =>
          mret (set_property (Pugi.name node) (VString (Pugi.text_as_string (Some node))) element)
      | PATH =>
          let p := resolvePath_str (Pugi.text_as_string (Some node)) path in
          (if fs_exists p then mret tt
           else warn {| warn_theme := path;
                        warn_token := Pugi.text_get (Some node);
                        warn_resolved := p |});;
          mret (set_property (Pugi.name node) (VString p) element)
      | COLOR =>
          c ← lift (getHexColor (Some (Pugi.text_as_string (Some node))));
          mret (set_property (Pugi.name node) (VUInt c) element)
      | FLOAT =>
          mret (set_property (Pugi.name node) (VFloat (text_as_float (Some node) F32.zero)) element)
      | BOOLEAN =>
          mret (set_property (Pugi.name node) (VBool (Pugi.text_as_bool (Some node))) element)
      end
  end.

(** [ThemeData::parseElement] *)
Definition parseElement (root : Pugi.xml_node)
    (typeMap : gmap string ElementPropertyType) : M ThemeElement :=
  let element :=
    {| extra := Pugi.attribute_as_bool (Pugi.attribute root "extra") false;
       type := "";
       properties := ∅ |} in
  for_each (parseProperty root typeMap) (Pugi.children root) element.

(** The body of the loop of [ThemeData::parseView]: one element child. *)
Definition parseViewChild (node : Pugi.xml_node) (view : ThemeView) : M ThemeView :=
  path ← gets mPath;
  match Pugi.attribute node "name" with
  | None => throw (error_in path (ElementMissingName (Pugi.name node)))
  | Some _ =>
      match sElementMap !! Pugi.name node with
      | None => throw (error_in path (UnknownElement (Pugi.name node)))
      | Some typeMap =>
          element ← parseElement node typeMap;
          mret (set_element (Pugi.attribute_as_string (Pugi.attribute node "name")) element view)
      end
  end.

(** [ThemeData::parseView] *)
Definition parseView (root : Pugi.xml_node) : M ThemeView :=
  for_each parseViewChild (Pugi.children root) {| elements := ∅ |}.

(** The body of the loop over the [view] children in [ThemeData::loadFile]. *)
Definition loadView (path : string) (node : Pugi.xml_node) (_ : unit) : M unit :=
  match Pugi.attribute node "name" with
  | None => throw (error_in path ViewMissingName)
  | Some _ =>
      view ← parseView node;
      if decide (0 < size (elements view)) then
        modify (fun t =>
          set_mViews (<[Pugi.attribute_as_string (Pugi.attribute node "name") := view]> (mViews t)) t)
      else mret tt
  end.

(** [void ThemeData::loadFile(const std::string& path)] *)
Definition loadFile (path : string) : M unit :=
  modify (set_mPath path);;
  if negb (fs_exists path) then throw (error_in path MissingFile)
  else
    modify (set_mVersion (F32.of_int 0));;
    modify (set_mViews ∅);;
    match load_file path with
    | Pugi.ParseError description => throw (error_in path (XmlParsingError description))
    | Pugi.ParseOk doc =>
        match Pugi.find_child "theme" doc with
        | None => throw (error_in path MissingThemeTag)
        | Some root =>
            modify (set_mVersion (text_as_float (Pugi.child root "version") (F32.of_int (-404))));;
            version ← gets mVersion;
            if F32.eqb version (F32.of_int (-404)) then
              throw (error_in path (VersionTagMissing CURRENT_THEME_VERSION))
            else if F32.ltb version (F32.of_int MINIMUM_THEME_VERSION) then
              throw (error_in path (VersionTooOld version MINIMUM_THEME_VERSION))
            else
              for_each (loadView path) (Pugi.children_named root "view") tt
        end
    end.

(** ** Notions the statements below are phrased with *)

(** The tag of the variant that [parseElement] stores for a property of the
    given declared type. *)
Definition has_type (v : PropertyValue) (ty : ElementPropertyType) : Prop :=
  match ty, v with
  | NORMALIZED_PAIR, VVector2f _ _ => True
  | PATH, VString _ => True
  | STRING, VString _ => True
  | COLOR, VUInt _ => True
  | FLOAT, VFloat _ => True
  | BOOLEAN, VBool _ => True
  | _, _ => False
  end.

(** Every stored property is declared in [typeMap] and carries the tag of
    its declared type. *)
Definition well_typed (typeMap : gmap string ElementPropertyType)
    (el : ThemeElement) : Prop :=
  forall n v, properties el !! n = Some v ->
    exists ty, typeMap !! n = Some ty /\ has_type v ty.

(** [el] is well typed under the registry entry of the tag of [node]. *)
Definition element_typed (node : Pugi.xml_node) (el : ThemeElement) : Prop :=
  exists typeMap, sElementMap !! Pugi.name node = Some typeMap /\ well_typed typeMap el.

(** Every element of the view was parsed from one of [nodes], carries that
    node's [name] attribute as its key, and is well typed under that node's
    element type. *)
Definition view_typed (nodes : list Pugi.xml_node) (view : ThemeView) : Prop :=
  forall en el, elements view !! en = Some el ->
    exists node,
      node ∈ nodes
      /\ Pugi.attribute_as_string (Pugi.attribute node "name") = en
      /\ element_typed node el.

Definition views_typed (vnodes : list Pugi.xml_node)
    (views : gmap string ThemeView) : Prop :=
  forall vn view, views !! vn = Some view ->
    exists vnode,
      vnode ∈ vnodes
      /\ Pugi.attribute_as_string (Pugi.attribute vnode "name") = vn
      /\ view_typed (Pugi.children vnode) view.

(** The value a property node of declared type [ty] decodes to, for a theme
    loaded from [path]. *)
Definition value_of (path : string) (ty : ElementPropertyType)
    (node : Pugi.xml_node) : Result PropertyValue :=
  let str := Pugi.text_as_string (Some node) in
  match ty with
  | NORMALIZED_PAIR =>
      match CStr.find " " str with
      | None => Throw (error_in path (InvalidNormalizedPair str))
      | Some divider =>
          Ok (VVector2f (F32.of_double (strtod (CStr.substr str 0 divider)))
                        (F32.of_double (strtod (CStr.substr_from str divider))))
      end
  | STRING => Ok (VString str)
  | PATH => Ok (VString (resolvePath_str str path))
  | COLOR =>
      match getHexColor (Some str) with
      | Ok c => Ok (VUInt c)
      | Throw e => Throw e
      end
  | FLOAT => Ok (VFloat (text_as_float (Some node) F32.zero))
  | BOOLEAN => Ok (VBool (Pugi.text_as_bool (Some node)))
  end.

(** A property child the parser accepts under the schema [typeMap]. *)
Definition valid_property (typeMap : gmap string ElementPropertyType)
    (node : Pugi.xml_node) : bool :=
  let str := Pugi.text_as_string (Some node) in
  match typeMap !! Pugi.name node with
  | None => false
  | Some NORMALIZED_PAIR => CStr.contains " " str
  | Some COLOR => (String.length str =? 6)%nat || (String.length str =? 8)%nat
  | Some _ => true
  end.

(** An element child the parser accepts: it is named, its tag is a
    registered element type, and all its property children are accepted. *)
Definition valid_element (node : Pugi.xml_node) : bool :=
  match Pugi.attribute node "name", sElementMap !! Pugi.name node with
  | Some _, Some typeMap => forallb (valid_property typeMap) (Pugi.children node)
  | _, _ => false
  end.

(** A view node the loader accepts. *)
Definition valid_view (node : Pugi.xml_node) : bool :=
  match Pugi.attribute node "name" with
  | Some _ => forallb valid_element (Pugi.children node)
  | None => false
  end.

(** What the parsing loops keep of the state, whatever their outcome: the
    theme object, and the log as a prefix (all of it when every path
    exists). *)
Definition kept (s t : State) : Prop :=
  self t = self s
  /\ log s `prefix_of` log t
  /\ ((forall p, fs_exists p = true) -> log t = log s).

(** The warning a property child gives rise to: one for a path whose
    resolved file does not exist, none otherwise. *)
Definition property_warnings (path : string)
    (typeMap : gmap string ElementPropertyType) (p : Pugi.xml_node) : list LogWarning :=
  match typeMap !! Pugi.name p with
  | Some PATH =>
      let resolved := resolvePath_str (Pugi.text_as_string (Some p)) path in
      if fs_exists resolved then []
      else [{| warn_theme := path;
               warn_token := Pugi.text_get (Some p);
               warn_resolved := resolved |}]
  | _ => []
  end.

(** The warnings of the properties of an element child, of the elements of
    a view, in document order. *)
Definition element_warnings (path : string) (e : Pugi.xml_node) : list LogWarning :=
  match sElementMap !! Pugi.name e with
  | Some typeMap => flat_map (property_warnings path typeMap) (Pugi.children e)
  | None => []
  end.

Definition view_warnings (path : string) (v : Pugi.xml_node) : list LogWarning :=
  flat_map (element_warnings path) (Pugi.children v).

(** The file a path property resolves to exists (nothing is asked of the
    other properties); likewise for every property of an element child, and
    of every element of a view. *)
Definition property_path_exists (path : string)
    (typeMap : gmap string ElementPropertyType) (p : Pugi.xml_node) : bool :=
  match typeMap !! Pugi.name p with
  | Some PATH => fs_exists (resolvePath_str (Pugi.text_as_string (Some p)) path)
  | _ => true
  end.

Definition element_paths_exist (path : string) (e : Pugi.xml_node) : bool :=
  match sElementMap !! Pugi.name e with
  | Some typeMap => forallb (property_path_exists path typeMap) (Pugi.children e)
  | None => true
  end.

Definition view_paths_exist (path : string) (v : Pugi.xml_node) : bool :=
  forallb (element_paths_exist path) (Pugi.children v).

(** No stored view is empty. *)
Definition views_nonempty (t : ThemeData) : Prop :=
  forall n view, mViews t !! n = Some view -> 0 < size (elements view).

(** The exceptions with the file prefix of [path], none of them the "Empty
    color" one, and the bad-length exception of [getHexColor], which has no
    prefix. *)
Definition prefixed_or_color (path : string) (e : ThemeException) : Prop :=
  (exc_file e = Some path /\ exc_what e <> EmptyColor)
  \/ exists str,
       e = error_bare (InvalidColorLength str)
       /\ String.length str <> 6 /\ String.length str <> 8.

(** The [name] attribute as the loader reads it. *)
Definition name_attr (node : Pugi.xml_node) : string :=
  Pugi.attribute_as_string (Pugi.attribute node "name").

(** What [parseView] returns for a view node of a theme loaded from [path]. *)
Definition view_of (path : string) (node : Pugi.xml_node) : Result ThemeView :=
  fst (parseView node {| self := set_mPath path ThemeData_new; log := [] |}).

End ThemeData.

(** ** Reference behaviour of the library calls *)

(** Executable instances of the section's variables, used to run the
    embedding on concrete documents.  Each covers the inputs named in its
    comment; the theorems below hold for every instance. *)
Module Reference.

Definition isspace (c : ascii) : bool :=
  let n := nat_of_ascii c in
  (n =? 32)%nat || ((9 <=? n)%nat && (n <=? 13)%nat).

Fixpoint skip_space (s : string) : string :=
  match s with
  | String c s' => if isspace c then skip_space s' else s
  | EmptyString => s
  end.

Definition digit_of (c : ascii) : option Z :=
  let n := nat_of_ascii c in
  if (48 <=? n)%nat && (n <=? 57)%nat then Some (Z.of_nat (n - 48)) else None.

(** Reads a run of decimal digits: the accumulated value, how many digits
    were read, and the rest of the string. *)
Fixpoint read_digits (s : string) (acc : Z) (count : nat) : Z * nat * string :=
  match s with
  | String c s' =>
      match digit_of c with
      | Some d => read_digits s' (10 * acc + d)%Z (S count)
      | None => (acc, count, s)
      end
  | EmptyString => (acc, count, s)
  end.

(** [strtod] on decimal literals [ws* sign? digits* (. digits* )?], correctly
    rounded to binary64; text without a leading number converts to zero.
    Exponents, hexadecimal floats, infinities and NaNs are not covered. *)
Definition strtod (s : string) : spec_float :=
  let s := skip_space s in
  let '(neg, s) :=
    match s with
    | String "-"%char s' => (true, s')
    | String "+"%char s' => (false, s')
    | _ => (false, s)
    end in
  let '(int_part, n_int, s) := read_digits s 0%Z 0 in
  let '(m, n_frac, _) :=
    match s with
    | String "."%char s' => read_digits s' int_part 0
    | _ => (int_part, 0, s)
    end in
  if (n_int + n_frac =? 0)%nat then S754_zero false
  else
    match m with
    | Zpos p =>
        SFdiv 53 1024 (S754_finite neg p 0)
              (S754_finite false (Z.to_pos (10 ^ Z.of_nat n_frac)) 0)
    | _ => S754_zero neg
    end.

Definition hex_digit_of (c : ascii) : option Z :=
  let n := nat_of_ascii c in
  if (48 <=? n)%nat && (n <=? 57)%nat then Some (Z.of_nat (n - 48))
  else if (65 <=? n)%nat && (n <=? 70)%nat then Some (Z.of_nat (n - 55))
  else if (97 <=? n)%nat && (n <=? 102)%nat then Some (Z.of_nat (n - 87))
  else None.

Fixpoint read_hex (s : string) (acc : Z) : Z :=
  match s with
  | String c s' =>
      match hex_digit_of c with
      | Some d => read_hex s' (16 * acc + d)%Z
      | None => acc
      end
  | EmptyString => acc
  end.

(** Extraction of an [unsigned int] in base 16 from a stream holding a run of
    hexadecimal digits: their value, [UINT_MAX] when it does not fit.  Signs
    and the [0x] prefix are not covered. *)
Definition istream_hex (s : string) : Z :=
  let v := read_hex s 0%Z in
  if (v <? 2 ^ 32)%Z then v else (2 ^ 32 - 1)%Z.

(** The characters before the last separator: [parent_path] of a path
    [dir/file] without trailing or repeated separators. *)
Fixpoint parent_path (s : string) : string :=
  match s with
  | EmptyString => EmptyString
  | String c s' =>
      if CStr.contains "/" s' then String c (parent_path s')
      else EmptyString
  end.

End Reference.

(** ** Example documents *)

Module Examples.

Import Pugi.

(** The file system seen by the examples: every path exists. *)
Definition all_exist (path : string) : bool := true.

Definition home : string := "/home/pi".

Definition theme_path : string := "/themes/simple/theme.xml".

(** A theme of version 3 with one view holding one image. *)
Definition pos_node : xml_node := Element "pos" [] [PCData "0.5 0.25"].
Definition logo : xml_node :=
  Element "image" [("name", "logo")]
    [pos_node;
     Element "path" [] [PCData "./logo.png"];
     Element "tile" [] [PCData "true"]].
Definition basic_view : xml_node := Element "view" [("name", "basic")] [logo].
Definition basic_root : xml_node :=
  Element "theme" [] [Element "version" [] [PCData "3"]; basic_view].
Definition basic_doc : list xml_node := [basic_root].

(** A document without a [theme] root. *)
Definition no_root_doc : list xml_node :=
  [Element "layout" [] []].

(** A theme declaring version -404. *)
Definition sentinel_version : xml_node := Element "version" [] [PCData "-404"].
Definition sentinel_root : xml_node := Element "theme" [] [sentinel_version].
Definition sentinel_doc : list xml_node := [sentinel_root].

(** A theme declaring version 2. *)
Definition old_root : xml_node :=
  Element "theme" [] [Element "version" [] [PCData "2"]].

(** A view whose only child has an unregistered tag and no [name]. *)
Definition unnamed_unknown_doc : list xml_node :=
  [Element "theme" []
     [Element "version" [] [PCData "3"];
      Element "view" [("name", "basic")] [Element "gauge" [] []]]].

(** A view whose first child is named but has an unregistered tag. *)
Definition named_gauge : xml_node := Element "gauge" [("name", "fuel")] [].
Definition named_unknown_view : xml_node :=
  Element "view" [("name", "basic")] [named_gauge].
Definition named_unknown_root : xml_node :=
  Element "theme" [] [Element "version" [] [PCData "3"]; named_unknown_view].

(** An image with a property its schema does not declare. *)
Definition colour_node : xml_node := Element "colour" [] [PCData "ff0000"].
Definition tinted_image : xml_node :=
  Element "image" [("name", "logo")]
    [Element "tile" [] [PCData "true"]; colour_node].
Definition unknown_property_view : xml_node :=
  Element "view" [("name", "basic")] [tinted_image].
Definition unknown_property_root : xml_node :=
  Element "theme" [] [Element "version" [] [PCData "3"]; unknown_property_view].

(** Three view nodes of the same name: two with one sound each, one
    without elements. *)
Definition click_view : xml_node :=
  Element "view" [("name", "basic")] [Element "sound" [("name", "click")] []].
Definition beep_view : xml_node :=
  Element "view" [("name", "basic")] [Element "sound" [("name", "beep")] []].
Definition empty_view : xml_node := Element "view" [("name", "basic")] [].
Definition shared_name_root : xml_node :=
  Element "theme" []
    [Element "version" [] [PCData "3"]; click_view; beep_view; empty_view].
Definition shared_name_doc : list xml_node := [shared_name_root].

(** A view with two sounds of the same name. *)
Definition click_a : xml_node :=
  Element "sound" [("name", "click")] [Element "path" [] [PCData "./a.ogg"]].
Definition click_b : xml_node :=
  Element "sound" [("name", "click")] [Element "path" [] [PCData "./b.ogg"]].
Definition two_clicks_view : xml_node :=
  Element "view" [("name", "menu")] [click_a; click_b].

(** A theme whose only view has no [name]. *)
Definition nameless_view : xml_node := Element "view" [] [logo].
Definition nameless_view_root : xml_node :=
  Element "theme" [] [Element "version" [] [PCData "3"]; nameless_view].

(** A view holding an unnamed image, and a view holding character data. *)
Definition unnamed_image : xml_node := Element "image" [] [].
Definition unnamed_image_view : xml_node :=
  Element "view" [("name", "basic")] [unnamed_image].
Definition unnamed_image_root : xml_node :=
  Element "theme" [] [Element "version" [] [PCData "3"]; unnamed_image_view].
Definition stray_text_view : xml_node :=
  Element "view" [("name", "basic")] [PCData "hello"].
Definition stray_text_root : xml_node :=
  Element "theme" [] [Element "version" [] [PCData "3"]; stray_text_view].

(** A text with a three-digit colour, an image with a one-number position,
    an image with character data in it. *)
Definition short_color : xml_node := Element "color" [] [PCData "fff"].
Definition short_color_text : xml_node :=
  Element "text" [("name", "title")] [short_color].
Definition short_color_view : xml_node :=
  Element "view" [("name", "basic")] [short_color_text].
Definition short_color_root : xml_node :=
  Element "theme" [] [Element "version" [] [PCData "3"]; short_color_view].
Definition short_color_doc : list xml_node := [short_color_root].
Definition lone_pos : xml_node := Element "pos" [] [PCData "0.5"].
Definition lone_pos_image : xml_node :=
  Element "image" [("name", "logo")] [lone_pos].
Definition lone_pos_view : xml_node :=
  Element "view" [("name", "basic")] [lone_pos_image].
Definition lone_pos_root : xml_node :=
  Element "theme" [] [Element "version" [] [PCData "3"]; lone_pos_view].
Definition stray_text_image : xml_node :=
  Element "image" [("name", "logo")] [PCData "hello"].
Definition stray_text_image_view : xml_node :=
  Element "view" [("name", "basic")] [stray_text_image].
Definition stray_text_image_root : xml_node :=
  Element "theme" [] [Element "version" [] [PCData "3"]; stray_text_image_view].

(** The schema of [text] elements. *)
Definition text_schema : gmap string ElementPropertyType :=
  default ∅ (sElementMap !! "text").

(** A file system holding the theme file and the logo it points to. *)
Definition theme_and_logo (path : string) : bool :=
  String.eqb path theme_path || String.eqb path "/themes/simple/logo.png".

(** A file system on which only the theme file exists. *)
Definition only_theme (path : string) : bool := String.eqb path theme_path.

(** A [strtod] that reads every text as NaN. *)
Definition strtod_nan (s : string) : spec_float := S754_nan.

(** An element setting [tile] twice. *)
Definition tile_true : xml_node := Element "tile" [] [PCData "true"].
Definition tile_false : xml_node := Element "tile" [] [PCData "false"].
Definition tile_twice : xml_node :=
  Element "image" [("name", "logo")] [tile_true; tile_false].

(** The schema of [image] elements. *)
Definition image_schema : gmap string ElementPropertyType :=
  default ∅ (sElementMap !! "image").

(** A theme object that has already loaded something. *)
Definition loaded : ThemeData :=
  {| mPath := "/themes/old/theme.xml";
     mVersion := F32.of_int 3;
     mViews := {[ "system" := {| elements := {[ "bg" :=
                   {| extra := false; type := ""; properties := ∅ |} ]} |} ]} |}.

Definition fresh : State := {| self := ThemeData_new; log := [] |}.

(** [loadFile] on a document, with the reference library behaviour. *)
Definition load (doc : list xml_node) (t : ThemeData) : Result unit * State :=
  loadFile Reference.strtod Reference.istream_hex all_exist
           (fun _ => ParseOk doc) home Reference.parent_path
           theme_path {| self := t; log := [] |}.

(** The loop body of [parseElement], likewise. *)
Definition parse_property (root : xml_node) (typeMap : gmap string ElementPropertyType)
    (node : xml_node) (element : ThemeElement) : Result ThemeElement * State :=
  parseProperty Reference.strtod Reference.istream_hex all_exist home
                Reference.parent_path root typeMap node element fresh.

Definition empty_element : ThemeElement :=
  {| extra := false; type := ""; properties := ∅ |}.

(** [loadFile], [parseView] and [parseElement] with the reference library
    behaviour on a chosen file system. *)
Definition load_on (fs : string -> bool) (doc : list xml_node) (s : State)
    : Result unit * State :=
  loadFile Reference.strtod Reference.istream_hex fs
           (fun _ => ParseOk doc) home Reference.parent_path theme_path s.

Definition parse_view (root : xml_node) (s : State) : Result ThemeView * State :=
  parseView Reference.strtod Reference.istream_hex all_exist home
            Reference.parent_path root s.

Definition parse_element (root : xml_node) (typeMap : gmap string ElementPropertyType)
    (s : State) : Result ThemeElement * State :=
  parseElement Reference.strtod Reference.istream_hex all_exist home
               Reference.parent_path root typeMap s.

(** A state whose theme was loaded from [theme_path]. *)
Definition at_theme : State :=
  {| self := set_mPath theme_path ThemeData_new; log := [] |}.

End Examples.

(** * Properties *)

(** ** The monad and the loop *)

Arguments F32.of_int : simpl never.
Arguments F32.of_double : simpl never.
Arguments F32.eqb : simpl never.
Arguments F32.ltb : simpl never.
Arguments getHexColor : simpl never.
Arguments resolvePath_str : simpl never.

(** Case analysis on the call of [f] that the goal is stuck on. *)
Ltac case_call f :=
  match goal with
  | |- context [f ?a ?b ?c] => destruct (f a b c)
  | |- context [f ?a ?b] => destruct (f a b)
  | |- context [f ?a] => destruct (f a)
  end.

Ltac unfold_M :=
  unfold mbind, M_bind, mret, M_ret, bind, ret, throw, gets, modify, warn, lift in *.

Lemma bind_Ok {A B} (m : M A) (k : A -> M B) s a s' :
  m s = (Ok a, s') -> (m ≫= k) s = k a s'.
Proof. intros H. unfold_M. by rewrite H. Qed.

Lemma bind_Throw {A B} (m : M A) (k : A -> M B) s e s' :
  m s = (Throw e, s') -> (m ≫= k) s = (Throw e, s').
Proof. intros H. unfold_M. by rewrite H. Qed.

Lemma bind_Ok_inv {A B} (m : M A) (k : A -> M B) s b s' :
  (m ≫= k) s = (Ok b, s') ->
  exists a s1, m s = (Ok a, s1) /\ k a s1 = (Ok b, s').
Proof.
  unfold_M. destruct (m s) as [[a|e] s1]; intros H; [eauto | discriminate].
Qed.

Lemma for_each_cons {A B} (body : B -> A -> M A) x l acc s :
  for_each body (x :: l) acc s = (body x acc ≫= for_each body l) s.
Proof. reflexivity. Qed.

Lemma for_each_app {A B} (body : B -> A -> M A) l1 l2 acc s :
  for_each body (l1 ++ l2)%list acc s = (for_each body l1 acc ≫= for_each body l2) s.
Proof.
  revert acc s. induction l1 as [|x l1 IH]; intros acc s; [done|].
  simpl. unfold mbind, M_bind, bind.
  destruct (body x acc s) as [[a|e] s1]; [apply IH | done].
Qed.

(** An invariant of the loop body is an invariant of the loop. *)
Lemma for_each_Ok_inv {A B} (body : B -> A -> M A) (I : A -> State -> Prop) l :
  (forall x a s a' s', x ∈ l -> I a s -> body x a s = (Ok a', s') -> I a' s') ->
  forall a s a' s', I a s -> for_each body l a s = (Ok a', s') -> I a' s'.
Proof.
  induction l as [|x l IH]; intros Hbody a s a' s' HI Hrun.
  - unfold_M. simpl in Hrun. unfold ret in Hrun. by simplify_eq.
  - rewrite for_each_cons in Hrun.
    apply bind_Ok_inv in Hrun as (a1 & s1 & H1 & H2).
    eapply IH; [|eapply (Hbody x); [left| |]|]; eauto.
    intros y b t b' t' Hy. apply Hbody. by right.
Qed.

(** A property of the state kept by the body, whatever its outcome, is kept
    by the loop. *)
Lemma for_each_state {A B} (body : B -> A -> M A) (J : State -> Prop) l :
  (forall x a s, x ∈ l -> J s -> J (snd (body x a s))) ->
  forall a s, J s -> J (snd (for_each body l a s)).
Proof.
  induction l as [|x l IH]; intros Hbody a s HJ; [done|].
  rewrite for_each_cons. unfold_M.
  pose proof (Hbody x a s ltac:(left) HJ) as H1.
  destruct (body x a s) as [[a1|e] s1]; simpl in *; [|done].
  apply IH; [|done]. intros y b t Hy. apply Hbody. by right.
Qed.

(** The loop stops at the first element on which the body throws. *)
Lemma for_each_Throw_at {A B} (body : B -> A -> M A) l1 x l2 a s a1 s1 e s2 :
  for_each body l1 a s = (Ok a1, s1) ->
  body x a1 s1 = (Throw e, s2) ->
  for_each body (l1 ++ x :: l2)%list a s = (Throw e, s2).
Proof.
  intros H1 H2. rewrite for_each_app, (bind_Ok _ _ _ _ _ H1), for_each_cons.
  by apply bind_Throw.
Qed.

(** Two runs of the loop from states related by [R] have the same outcome
    when this holds of the body and the body keeps the states related. *)
Lemma for_each_related {A B} (body : B -> A -> M A) (R : State -> State -> Prop) l :
  (forall x a s1 s2, R s1 s2 ->
     fst (body x a s1) = fst (body x a s2)
     /\ R (snd (body x a s1)) (snd (body x a s2))) ->
  forall a s1 s2, R s1 s2 ->
    fst (for_each body l a s1) = fst (for_each body l a s2)
    /\ R (snd (for_each body l a s1)) (snd (for_each body l a s2)).
Proof.
  intros Hbody. induction l as [|x l IH]; intros a s1 s2 HR; [done|].
  rewrite !for_each_cons. unfold mbind, M_bind, bind.
  destruct (Hbody x a s1 s2 HR) as [Hf Hs].
  destruct (body x a s1) as [r1 t1], (body x a s2) as [r2 t2].
  simpl in Hf, Hs. subst r2. destruct r1 as [a1|e]; [by apply IH | done].
Qed.

(** ** Strings and paths *)

Lemma find_contains c s : CStr.contains c s = false <-> CStr.find c s = None.
Proof. unfold CStr.contains. destruct (CStr.find c s); split; congruence. Qed.

(** [find] cuts the string at the first occurrence of the character. *)
Lemma find_split c s d :
  CStr.find c s = Some d ->
  (CStr.substr s 0 d ++ CStr.substr_from s d)%string = s
  /\ CStr.contains c (CStr.substr s 0 d) = false
  /\ CStr.first_char (CStr.substr_from s d) = c.
Proof.
  unfold CStr.substr, CStr.substr_from, CStr.contains.
  revert d. induction s as [|a s IH]; intros d; simpl; [discriminate|].
  destruct (Ascii.eqb_spec a c) as [->|Hne].
  - intros [= <-]. simpl. split; [|done].
    change (String c (substring 0 (String.length s) s) = String c s).
    f_equal. clear. induction s as [|b s IH]; simpl; [done | by rewrite IH].
  - destruct (CStr.find c s) as [d'|] eqn:Hf; [|discriminate].
    intros [= <-]. destruct (IH d' eq_refl) as (H1 & H2 & H3). simpl.
    split; [|split].
    + change (String a (substring 0 d' s ++ substring d' (String.length s - d') s)
              = String a s). by rewrite H1.
    + destruct (Ascii.eqb_spec a c); [done|].
      by destruct (CStr.find c (substring 0 d' s)).
    + done.
Qed.

Lemma append_empty_r (s : string) : (s ++ "")%string = s.
Proof.
  induction s as [|c s IH]; [done|].
  change (String c (s ++ "") = String c s). by rewrite IH.
Qed.

Lemma take_name_empty s :
  BoostFs.take_name s = "" ->
  s = "" \/ exists r, s = String "/" r.
Proof.
  destruct s as [|c r]; [by left|]. simpl. unfold BoostFs.is_separator.
  destruct (Ascii.eqb_spec c "/") as [->|]; [right; eauto | discriminate].
Qed.

(** The first path element is a single character [c] other than the
    separator exactly when the path is [c] alone or starts with [c/]. *)
Lemma first_element_char (c : ascii) (s : string) :
  BoostFs.is_separator c = false ->
  BoostFs.first_element s = String c "" <->
  s = String c "" \/ exists r, s = String c (String "/" r).
Proof.
  intros Hc. split.
  - destruct s as [|c0 rest0]; [discriminate|]. simpl.
    destruct (BoostFs.is_separator c0) eqn:H0.
    + apply Ascii.eqb_eq in H0 as ->.
      destruct rest0 as [|c1 rest1]; [intros [=]; subst; discriminate|].
      destruct (BoostFs.is_separator c1) eqn:H1;
        [|intros [=]; subst; discriminate].
      destruct rest1 as [|c2 rest2]; [discriminate|].
      destruct (BoostFs.is_separator c2); [intros [=]; subst; discriminate|].
      cbv [String.append]. intros [=]; subst; discriminate.
    + intros [= -> Hrest]. apply take_name_empty in Hrest as [->|[r ->]]; eauto.
  - intros [->|[r ->]]; simpl; rewrite Hc; simpl; reflexivity.
Qed.

Lemma append_after_first_char (c : ascii) (s lhs : string) :
  BoostFs.is_separator c = false ->
  BoostFs.first_element s = String c "" ->
  BoostFs.append lhs (CStr.advance s) = (lhs ++ CStr.advance s)%string.
Proof.
  intros Hc H. apply first_element_char in H as [->|[r ->]]; [| |done].
  - simpl. by rewrite append_empty_r.
  - reflexivity.
Qed.

Lemma first_char_zero s : Ascii.eqb (CStr.first_char s) Ascii.zero = true -> s = "" \/ exists r, s = String Ascii.zero r.
Proof.
  destruct s as [|c r]; [by left|]. simpl. intros ->%Ascii.eqb_eq. right; eauto.
Qed.

(** ** 32-bit colours *)

Lemma low_byte_lor_255 (x : Z) : Z.land (Z.lor x 255) 255 = 255%Z.
Proof.
  apply Z.bits_inj'. intros n Hn. rewrite Z.land_spec, Z.lor_spec.
  destruct (Z.testbit 255 n), (Z.testbit x n); reflexivity.
Qed.

Lemma wrap32_range z : (0 <= wrap32 z < 2 ^ 32)%Z.
Proof. unfold wrap32. apply Z.mod_pos_bound. lia. Qed.

Lemma wrap32_small z : (0 <= z < 2 ^ 32)%Z -> wrap32 z = z.
Proof. intros H. unfold wrap32. by apply Z.mod_small. Qed.

Lemma lor_255_range x : (0 <= x < 2 ^ 32)%Z -> (0 <= Z.lor x 255 < 2 ^ 32)%Z.
Proof.
  intros [H0 H1]. split; [apply Z.lor_nonneg; lia|].
  destruct (Z.eq_dec (Z.lor x 255) 0%Z) as [->|Hne]; [lia|].
  apply Z.log2_lt_pow2; [pose proof (Z.lor_nonneg x 255); lia|].
  rewrite Z.log2_lor by lia.
  apply Z.max_lub_lt; [|reflexivity].
  destruct (Z.eq_dec x 0%Z) as [->|Hx]; [reflexivity|].
  apply Z.log2_lt_pow2; lia.
Qed.

Section Properties.

Variable strtod : string -> spec_float.
Variable istream_hex : string -> Z.
Variable fs_exists : string -> bool.
Variable load_file : string -> Pugi.xml_parse_result.
Variable getHomePath : string.
Variable parent_path : string -> string.

Local Abbreviation getHexColor' := (getHexColor istream_hex).
Local Abbreviation resolvePath_str' := (resolvePath_str getHomePath parent_path).
Local Abbreviation resolvePath' := (resolvePath getHomePath parent_path).
Local Abbreviation text_as_float' := (text_as_float strtod).
Local Abbreviation value_of' := (value_of strtod istream_hex getHomePath parent_path).
Local Abbreviation parseProperty' :=
  (parseProperty strtod istream_hex fs_exists getHomePath parent_path).
Local Abbreviation parseElement' :=
  (parseElement strtod istream_hex fs_exists getHomePath parent_path).
Local Abbreviation parseViewChild' :=
  (parseViewChild strtod istream_hex fs_exists getHomePath parent_path).
Local Abbreviation parseView' :=
  (parseView strtod istream_hex fs_exists getHomePath parent_path).
Local Abbreviation loadView' :=
  (loadView strtod istream_hex fs_exists getHomePath parent_path).
Local Abbreviation loadFile' :=
  (loadFile strtod istream_hex fs_exists load_file getHomePath parent_path).
Local Abbreviation view_of' :=
  (view_of strtod istream_hex fs_exists getHomePath parent_path).
Local Abbreviation kept' := (kept fs_exists).
Local Abbreviation property_warnings' :=
  (property_warnings fs_exists getHomePath parent_path).
Local Abbreviation element_warnings' :=
  (element_warnings fs_exists getHomePath parent_path).
Local Abbreviation view_warnings' :=
  (view_warnings fs_exists getHomePath parent_path).
Local Abbreviation property_path_exists' :=
  (property_path_exists fs_exists getHomePath parent_path).
Local Abbreviation element_paths_exist' :=
  (element_paths_exist fs_exists getHomePath parent_path).
Local Abbreviation view_paths_exist' :=
  (view_paths_exist fs_exists getHomePath parent_path).

(** C3. [getHexColor]: a null token throws "Empty color"; a token whose
    length is neither 6 nor 8 throws the bad-length error; a token of length
    6 decodes to the stream's base-16 reading shifted left by 8 bits and
    or-ed with 0xFF, a 32-bit value whose low byte is 0xFF, and when the
    reading has at most 24 bits nothing is lost in the shift; a token of
    length 8 decodes to the plain base-16 reading. *)
Theorem getHexColor_spec :
  getHexColor' None = Throw (error_bare EmptyColor)
  /\ (forall s, String.length s <> 6 -> String.length s <> 8 ->
        getHexColor' (Some s) = Throw (error_bare (InvalidColorLength s)))
  /\ (forall s, String.length s = 6 ->
        exists v,
          getHexColor' (Some s) = Ok v
          /\ v = Z.lor (wrap32 (Z.shiftl (wrap32 (istream_hex s)) 8)) 255
          /\ Z.land v 255 = 255%Z
          /\ (0 <= v < 2 ^ 32)%Z
          /\ ((0 <= istream_hex s < 2 ^ 24)%Z ->
              v = Z.lor (Z.shiftl (istream_hex s) 8) 255))
  /\ (forall s, String.length s = 8 ->
        getHexColor' (Some s) = Ok (wrap32 (istream_hex s))).
Proof.
  split; [reflexivity|]. split; [|split].
  - intros s H6 H8. unfold getHexColor.
    apply Nat.eqb_neq in H6, H8. by rewrite H6, H8.
  - intros s H6. unfold getHexColor. rewrite H6. simpl.
    eexists. split; [reflexivity|]. split; [reflexivity|].
    split; [apply low_byte_lor_255|].
    split; [apply lor_255_range, wrap32_range|].
    intros Hr. rewrite (wrap32_small (istream_hex s)) by lia.
    rewrite wrap32_small; [done|].
    rewrite Z.shiftl_mul_pow2 by lia. lia.
  - intros s H8. unfold getHexColor. by rewrite H8.
Qed.

(** [resolvePath] on a non-null token, by cases on the first path element. *)
Lemma resolvePath_cases (s relative : string) :
  (s = "" -> resolvePath' (Some s) relative = Returns "")
  /\ (BoostFs.first_element s = "~" ->
      resolvePath' (Some s) relative = Returns (getHomePath ++ CStr.advance s)%string)
  /\ (BoostFs.first_element s = "." ->
      resolvePath' (Some s) relative
      = Returns (parent_path relative ++ CStr.advance s)%string)
  /\ (BoostFs.first_element s <> "~" -> BoostFs.first_element s <> "." ->
      resolvePath' (Some s) relative = Returns s).
Proof.
  unfold resolvePath, resolvePath_str, BoostFs.generic_string.
  split; [by intros ->|]. split; [|split].
  - intros H. destruct (Ascii.eqb (CStr.first_char s) Ascii.zero) eqn:Hz.
    + apply first_char_zero in Hz as [->|[r ->]]; [discriminate|].
      simpl in H. discriminate.
    + by rewrite H.
  - intros H. destruct (Ascii.eqb (CStr.first_char s) Ascii.zero) eqn:Hz.
    + apply first_char_zero in Hz as [->|[r ->]]; [discriminate|].
      simpl in H. discriminate.
    + rewrite H. simpl. by rewrite (append_after_first_char "." s).
  - intros H1 H2. destruct (Ascii.eqb (CStr.first_char s) Ascii.zero); [done|].
    apply String.eqb_neq in H1, H2. by rewrite H1, H2.
Qed.

(** C5. [resolvePath] on a null token: the early [return in;] builds the
    returned [std::string] from the null pointer, so the call has no defined
    result and in particular does not hand the token back. *)
Theorem resolvePath_null (relative : string) :
  resolvePath getHomePath parent_path None relative = string_of_cstr None
  /\ resolvePath getHomePath parent_path None relative = Undefined
  /\ forall s, resolvePath getHomePath parent_path None relative <> Returns s.
Proof.
  split; [reflexivity|]. split; [reflexivity|].
  intros s. discriminate.
Qed.

(** *** One property child *)

(** The outcome of the loop body: the unknown-property error, the error of
    the coder, or the element with the decoded value stored under the
    node's name. *)
Lemma parseProperty_fst root typeMap node element s :
  fst (parseProperty' root typeMap node element s) =
  match typeMap !! Pugi.name node with
  | None => Throw (error_in (mPath (self s))
                     (UnknownPropertyType (Pugi.name node) (Pugi.name root)))
  | Some ty =>
      match value_of' (mPath (self s)) ty node with
      | Ok v => Ok (set_property (Pugi.name node) v element)
      | Throw e => Throw e
      end
  end.
Proof.
  unfold parseProperty, value_of. unfold_M. simpl.
  destruct (typeMap !! Pugi.name node) as [[]|]; simpl; try reflexivity.
  - by case_call CStr.find.
  - by destruct (fs_exists _).
  - by case_call getHexColor.
Qed.

(** The loop body never touches the theme object. *)
Lemma parseProperty_self root typeMap node element s :
  self (snd (parseProperty' root typeMap node element s)) = self s.
Proof.
  unfold parseProperty. unfold_M. simpl.
  destruct (typeMap !! Pugi.name node) as [[]|]; simpl; try reflexivity.
  - by case_call CStr.find.
  - by destruct (fs_exists _).
  - by case_call getHexColor.
Qed.

Lemma parseProperty_Ok root typeMap node element s element' s' :
  parseProperty' root typeMap node element s = (Ok element', s') ->
  exists ty v,
    typeMap !! Pugi.name node = Some ty
    /\ value_of' (mPath (self s)) ty node = Ok v
    /\ element' = set_property (Pugi.name node) v element
    /\ self s' = self s.
Proof.
  intros H. pose proof (parseProperty_fst root typeMap node element s) as Hf.
  pose proof (parseProperty_self root typeMap node element s) as Hs.
  rewrite H in Hf, Hs. simpl in Hf, Hs.
  destruct (typeMap !! Pugi.name node) as [ty|]; [|discriminate].
  destruct (value_of' (mPath (self s)) ty node) as [v|] eqn:Hv; [|discriminate].
  exists ty, v. by simplify_eq.
Qed.

(** The value decoded for a property always carries the tag of its declared
    type. *)
Lemma value_of_has_type path ty node v :
  value_of' path ty node = Ok v -> has_type v ty.
Proof.
  unfold value_of. destruct ty; simpl.
  - case_call CStr.find; [|discriminate]. by intros [= <-].
  - by intros [= <-].
  - by intros [= <-].
  - case_call getHexColor; [|discriminate]. by intros [= <-].
  - by intros [= <-].
  - by intros [= <-].
Qed.

(** A property child accepted by [valid_property] decodes to a value. *)
Lemma valid_property_value path typeMap node :
  valid_property typeMap node = true ->
  exists ty v, typeMap !! Pugi.name node = Some ty /\ value_of' path ty node = Ok v.
Proof.
  unfold valid_property, value_of.
  destruct (typeMap !! Pugi.name node) as [ty|]; [|discriminate].
  intros H. exists ty. destruct ty; eauto.
  - unfold CStr.contains in H. destruct (CStr.find " " _); [eauto | discriminate].
  - unfold getHexColor.
    destruct (String.length _ =? 6)%nat, (String.length _ =? 8)%nat;
      simpl in *; eauto; discriminate.
Qed.

(** *** The properties of one element *)

Lemma properties_loop root typeMap l :
  forall element s element' s',
  for_each (parseProperty' root typeMap) l element s = (Ok element', s') ->
  self s' = self s
  /\ extra element' = extra element
  /\ (forall n, (forall x, x ∈ l -> Pugi.name x <> n) ->
       properties element' !! n = properties element !! n).
Proof.
  induction l as [|x l IH]; intros element s element' s' Hrun.
  - simpl in Hrun. unfold ret in Hrun. by simplify_eq.
  - rewrite for_each_cons in Hrun.
    apply bind_Ok_inv in Hrun as (e1 & s1 & H1 & H2).
    apply parseProperty_Ok in H1 as (ty & v & _ & _ & -> & Hs1).
    apply IH in H2 as (Hs & Hx & Hp). split; [congruence|]. split; [done|].
    intros n Hn. rewrite Hp by (intros y Hy; apply Hn; by right).
    simpl. apply lookup_insert_ne, Hn. by left.
Qed.

Lemma valid_properties_Ok root typeMap l :
  forallb (valid_property typeMap) l = true ->
  forall element s, exists element' s',
    for_each (parseProperty' root typeMap) l element s = (Ok element', s').
Proof.
  induction l as [|x l IH]; intros Hl element s; [by eexists _, _|].
  simpl in Hl. apply andb_true_iff in Hl as [Hx Hl].
  destruct (valid_property_value (mPath (self s)) _ _ Hx) as (ty & v & Hty & Hv).
  pose proof (parseProperty_fst root typeMap x element s) as Hf.
  rewrite Hty, Hv in Hf.
  destruct (parseProperty' root typeMap x element s) as [r s1] eqn:Hrun.
  simpl in Hf. subst r.
  destruct (IH Hl (set_property (Pugi.name x) v element) s1) as (e' & s' & Hrest).
  exists e', s'. rewrite for_each_cons. by rewrite (bind_Ok _ _ _ _ _ Hrun).
Qed.

Lemma well_typed_loop root typeMap l :
  forall element s element' s',
  well_typed typeMap element ->
  for_each (parseProperty' root typeMap) l element s = (Ok element', s') ->
  well_typed typeMap element'.
Proof.
  intros element s element' s'.
  apply (for_each_Ok_inv _ (fun e _ => well_typed typeMap e)).
  intros x a t a' t' _ Ha Hrun.
  apply parseProperty_Ok in Hrun as (ty & v & Hty & Hv & -> & _).
  intros n w. simpl. rewrite lookup_insert. case_decide as Hn.
  - intros [= <-]. subst n. exists ty. eauto using value_of_has_type.
  - apply Ha.
Qed.

Lemma parseElement_Ok root typeMap s el s' :
  parseElement' root typeMap s = (Ok el, s') ->
  well_typed typeMap el /\ self s' = self s.
Proof.
  unfold parseElement. intros Hrun. split.
  - eapply well_typed_loop; [|exact Hrun]. intros n v. simpl.
    by rewrite lookup_empty.
  - by apply properties_loop in Hrun as (? & _).
Qed.

(** The element [parseElement] returns holds, under the name of the last
    child of that name, the value decoded from that child. *)
Lemma stored_by_last_child root typeMap s node ty v l1 l2 el s' :
  typeMap !! Pugi.name node = Some ty ->
  value_of' (mPath (self s)) ty node = Ok v ->
  Pugi.children root = (l1 ++ node :: l2)%list ->
  (forall x, x ∈ l2 -> Pugi.name x <> Pugi.name node) ->
  parseElement' root typeMap s = (Ok el, s') ->
  properties el !! Pugi.name node = Some v.
Proof.
  intros Hty Hv Hch Hlast. unfold parseElement. rewrite Hch, for_each_app.
  intros Hrun. apply bind_Ok_inv in Hrun as (e1 & s1 & H1 & Hrun).
  rewrite for_each_cons in Hrun.
  apply bind_Ok_inv in Hrun as (e2 & s2 & H2 & H3).
  apply properties_loop in H1 as (Hs1 & _).
  apply parseProperty_Ok in H2 as (ty' & v' & Hty' & Hv' & -> & _).
  apply properties_loop in H3 as (_ & _ & Hp).
  rewrite (Hp _ Hlast). simpl. rewrite lookup_insert_eq.
  rewrite Hs1 in Hv'. congruence.
Qed.

(** C4. A geometry pair: for a property child declared [NORMALIZED_PAIR],
    a text without a space makes [parseElement]'s loop body throw the
    invalid-normalized-pair error; otherwise the text is cut at its first
    space, the part before it holding no space and the part from it on
    starting with that space, and the pair made of the [float] cast of
    [atof] of each part is what the element holds under the node's name:
    the element the loop body hands on (its flag and its other properties
    being untouched), and the element [parseElement] returns when no later
    child has the same name; so when [atof] reads 0.5 and 0.25, the element
    holds the pair (0.5, 0.25) for the text "0.5 0.25". *)
Theorem normalized_pair_spec root typeMap node element s :
  typeMap !! Pugi.name node = Some NORMALIZED_PAIR ->
  let str := Pugi.text_as_string (Some node) in
  (CStr.contains " " str = false ->
     parseProperty' root typeMap node element s
     = (Throw (error_in (mPath (self s)) (InvalidNormalizedPair str)), s))
  /\ (CStr.contains " " str = true ->
      exists divider,
        CStr.find " " str = Some divider
        /\ (CStr.substr str 0 divider ++ CStr.substr_from str divider)%string = str
        /\ CStr.contains " " (CStr.substr str 0 divider) = false
        /\ CStr.first_char (CStr.substr_from str divider) = " "%char
        /\ (exists element',
              parseProperty' root typeMap node element s = (Ok element', s)
              /\ properties element' !! Pugi.name node
                 = Some (VVector2f
                           (F32.of_double (atof strtod (CStr.substr str 0 divider)))
                           (F32.of_double (atof strtod (CStr.substr_from str divider))))
              /\ extra element' = extra element
              /\ forall n, n <> Pugi.name node ->
                   properties element' !! n = properties element !! n)
        /\ (forall l1 l2 el s',
              Pugi.children root = (l1 ++ node :: l2)%list ->
              (forall x, x ∈ l2 -> Pugi.name x <> Pugi.name node) ->
              parseElement' root typeMap s = (Ok el, s') ->
              properties el !! Pugi.name node
              = Some (VVector2f
                        (F32.of_double (atof strtod (CStr.substr str 0 divider)))
                        (F32.of_double (atof strtod (CStr.substr_from str divider))))))
  /\ (str = "0.5 0.25" ->
      atof strtod "0.5" = S754_finite false 4503599627370496 (-53) ->
      atof strtod " 0.25" = S754_finite false 4503599627370496 (-54) ->
      (exists element',
         parseProperty' root typeMap node element s = (Ok element', s)
         /\ properties element' !! Pugi.name node
            = Some (VVector2f (S754_finite false 8388608 (-24))
                              (S754_finite false 8388608 (-25))))
      /\ (forall l1 l2 el s',
            Pugi.children root = (l1 ++ node :: l2)%list ->
            (forall x, x ∈ l2 -> Pugi.name x <> Pugi.name node) ->
            parseElement' root typeMap s = (Ok el, s') ->
            properties el !! Pugi.name node
            = Some (VVector2f (S754_finite false 8388608 (-24))
                              (S754_finite false 8388608 (-25))))).
Proof.
  intros Hty str.
  assert (forall divider,
            CStr.find " " str = Some divider ->
            (exists element',
               parseProperty' root typeMap node element s = (Ok element', s)
               /\ properties element' !! Pugi.name node
                  = Some (VVector2f
                            (F32.of_double (atof strtod (CStr.substr str 0 divider)))
                            (F32.of_double (atof strtod (CStr.substr_from str divider))))
               /\ extra element' = extra element
               /\ forall n, n <> Pugi.name node ->
                    properties element' !! n = properties element !! n)
            /\ (forall l1 l2 el s',
                  Pugi.children root = (l1 ++ node :: l2)%list ->
                  (forall x, x ∈ l2 -> Pugi.name x <> Pugi.name node) ->
                  parseElement' root typeMap s = (Ok el, s') ->
                  properties el !! Pugi.name node
                  = Some (VVector2f
                            (F32.of_double (atof strtod (CStr.substr str 0 divider)))
                            (F32.of_double (atof strtod (CStr.substr_from str divider))))))
    as Hstored.
  { intros divider Hfind. split.
    - eexists. split.
      + unfold parseProperty. unfold_M. simpl. rewrite Hty. fold str.
        rewrite Hfind. reflexivity.
      + simpl. split; [apply lookup_insert_eq|]. split; [done|].
        intros n Hn. by apply lookup_insert_ne.
    - intros l1 l2 el s' Hch Hlast Hrun.
      eapply stored_by_last_child; [exact Hty| |exact Hch|exact Hlast|exact Hrun].
      unfold value_of. fold str. by rewrite Hfind. }
  split; [|split].
  - intros H. apply find_contains in H.
    unfold parseProperty. unfold_M. simpl. rewrite Hty. fold str. by rewrite H.
  - intros H. unfold CStr.contains in H.
    destruct (CStr.find " " str) as [divider|] eqn:Hfind; [|discriminate].
    exists divider. split; [done|].
    destruct (find_split _ _ _ Hfind) as (H1 & H2 & H3).
    split; [done|]. split; [done|]. split; [done|].
    by apply Hstored.
  - intros Hstr H1 H2.
    assert (CStr.find " " str = Some 3) as Hfind by (by rewrite Hstr).
    destruct (Hstored 3 Hfind) as [(element' & Hrun & Hlookup & _) Hlast].
    assert (CStr.substr str 0 3 = "0.5") as Hfirst by (by rewrite Hstr).
    assert (CStr.substr_from str 3 = " 0.25") as Hsecond by (by rewrite Hstr).
    rewrite Hfirst, Hsecond, H1, H2 in Hlookup, Hlast.
    split; [by exists element' | exact Hlast].
Qed.

(** C8. An element node whose children hold two property children [p1]
    and [p2] of the same name, [p2] being the last of that name, every
    child being acceptable on its own: [parseElement] succeeds, and the
    value stored under that name is the one decoded from [p2]. *)
Theorem duplicate_property_last_wins root typeMap s l1 p1 l2 p2 l3 :
  Pugi.children root = (l1 ++ p1 :: l2 ++ p2 :: l3)%list ->
  Pugi.name p1 = Pugi.name p2 ->
  (forall x, x ∈ l3 -> Pugi.name x <> Pugi.name p2) ->
  forallb (valid_property typeMap) (Pugi.children root) = true ->
  exists el s' ty v,
    parseElement' root typeMap s = (Ok el, s')
    /\ typeMap !! Pugi.name p2 = Some ty
    /\ value_of' (mPath (self s)) ty p2 = Ok v
    /\ properties el !! Pugi.name p2 = Some v.
Proof.
  intros Hch Hname Hlast Hvalid.
  set (e0 := {| extra := Pugi.attribute_as_bool (Pugi.attribute root "extra") false;
                type := ""; properties := ∅ |}).
  destruct (valid_properties_Ok root typeMap _ Hvalid e0 s) as (el & s' & Hrun).
  exists el, s'. unfold parseElement. fold e0.
  rewrite Hch in Hrun |- *.
  replace (l1 ++ p1 :: l2 ++ p2 :: l3)%list with ((l1 ++ p1 :: l2) ++ p2 :: l3)%list in *
    by (by rewrite <- app_assoc).
  pose proof Hrun as Hrun'.
  rewrite for_each_app in Hrun'.
  apply bind_Ok_inv in Hrun' as (e1 & s1 & H1 & H2).
  rewrite for_each_cons in H2.
  apply bind_Ok_inv in H2 as (e2 & s2 & H2 & H3).
  apply properties_loop in H1 as (Hs1 & _).
  apply parseProperty_Ok in H2 as (ty & v & Hty & Hv & -> & Hs2).
  apply properties_loop in H3 as (_ & _ & Hp).
  exists ty, v. split; [done|]. split; [done|]. split; [by rewrite <- Hs1|].
  rewrite (Hp _ Hlast). simpl. apply lookup_insert_eq.
Qed.

(** *** The elements of one view *)

Lemma parseElement_related root typeMap s1 s2 :
  same_path s1 s2 ->
  fst (parseElement' root typeMap s1) = fst (parseElement' root typeMap s2)
  /\ same_path (snd (parseElement' root typeMap s1)) (snd (parseElement' root typeMap s2)).
Proof.
  unfold parseElement. apply for_each_related. clear s1 s2.
  intros x a s1 s2 HR. unfold same_path in *.
  rewrite !parseProperty_fst, !parseProperty_self, HR. done.
Qed.

Lemma parseViewChild_related node view s1 s2 :
  same_path s1 s2 ->
  fst (parseViewChild' node view s1) = fst (parseViewChild' node view s2)
  /\ same_path (snd (parseViewChild' node view s1)) (snd (parseViewChild' node view s2)).
Proof.
  intros HR. unfold parseViewChild. unfold_M. simpl.
  pose proof HR as HR'. unfold same_path in HR'. rewrite HR'.
  destruct (Pugi.attribute node "name"); [|done].
  destruct (sElementMap !! Pugi.name node) as [typeMap|]; [|done].
  destruct (parseElement_related node typeMap s1 s2 HR) as [Hf Hs].
  destruct (parseElement' node typeMap s1) as [r1 t1].
  destruct (parseElement' node typeMap s2) as [r2 t2].
  simpl in Hf, Hs. subst r2. by destruct r1.
Qed.

(** What [parseView] returns depends on the state through [mPath] only. *)
Lemma parseView_view_of root s :
  fst (parseView' root s) = view_of' (mPath (self s)) root.
Proof.
  unfold view_of, parseView.
  apply (for_each_related _ same_path); [|done].
  intros x a s1 s2. apply parseViewChild_related.
Qed.

Lemma parseViewChild_Ok node view s view' s' :
  parseViewChild' node view s = (Ok view', s') ->
  exists a typeMap el,
    Pugi.attribute node "name" = Some a
    /\ sElementMap !! Pugi.name node = Some typeMap
    /\ parseElement' node typeMap s = (Ok el, s')
    /\ view' = set_element (Pugi.attribute_as_string (Pugi.attribute node "name")) el view.
Proof.
  unfold parseViewChild. unfold_M. simpl.
  destruct (Pugi.attribute node "name") as [a|] eqn:Ha; [|discriminate].
  destruct (sElementMap !! Pugi.name node) as [typeMap|]; [|discriminate].
  destruct (parseElement' node typeMap s) as [[el|e] s1] eqn:Hel; [|discriminate].
  intros [= <- <-]. by exists a, typeMap, el.
Qed.

Lemma valid_element_Ok node view s :
  valid_element node = true ->
  exists view' s', parseViewChild' node view s = (Ok view', s').
Proof.
  unfold valid_element, parseViewChild. unfold_M. simpl.
  destruct (Pugi.attribute node "name"); [|discriminate].
  destruct (sElementMap !! Pugi.name node) as [typeMap|]; [|discriminate].
  intros Hv. unfold parseElement.
  edestruct (valid_properties_Ok node typeMap _ Hv) as (el & s' & ->).
  by eexists _, _.
Qed.

Lemma parseView_Ok root s view s' :
  parseView' root s = (Ok view, s') ->
  view_typed (Pugi.children root) view /\ self s' = self s.
Proof.
  unfold parseView. intros Hrun.
  eapply (for_each_Ok_inv _ (fun a t => view_typed (Pugi.children root) a /\ self t = self s));
    [| |exact Hrun].
  - intros x a t a' t' Hx [Ha Ht] Hstep.
    apply parseViewChild_Ok in Hstep as (nm & typeMap & el & Hnm & Hty & Hel & ->).
    apply parseElement_Ok in Hel as [Hwt Hself]. split; [|congruence].
    intros en el'. simpl. rewrite lookup_insert. case_decide as Hn.
    + intros [= <-]. exists x. split; [done|]. split; [done|]. by exists typeMap.
    + apply Ha.
  - split; [|done]. intros en el. simpl. by rewrite lookup_empty.
Qed.

Lemma valid_elements_Ok l :
  forallb valid_element l = true ->
  forall view s, exists view' s', for_each parseViewChild' l view s = (Ok view', s').
Proof.
  induction l as [|x l IH]; intros Hl view s; [by eexists _, _|].
  simpl in Hl. apply andb_true_iff in Hl as [Hx Hl].
  destruct (valid_element_Ok x view s Hx) as (v1 & s1 & H1).
  destruct (IH Hl v1 s1) as (v' & s' & H2).
  exists v', s'. rewrite for_each_cons. by rewrite (bind_Ok _ _ _ _ _ H1).
Qed.

(** *** The views of one document *)

Lemma loadView_Ok path node s s' :
  loadView' path node tt s = (Ok tt, s') ->
  exists a view s1,
    Pugi.attribute node "name" = Some a
    /\ parseView' node s = (Ok view, s1)
    /\ self s1 = self s
    /\ s' = if decide (0 < size (elements view)) then
              {| self := set_mViews (<[name_attr node := view]> (mViews (self s1))) (self s1);
                 log := log s1 |}
            else s1.
Proof.
  unfold loadView. unfold_M.
  destruct (Pugi.attribute node "name") as [a|] eqn:Ha; [|discriminate].
  destruct (parseView' node s) as [[view|e] s1] eqn:Hview; [|discriminate].
  intros Hrun. exists a, view, s1. split; [done|]. split; [done|].
  split; [by apply parseView_Ok in Hview as [_ ?]|].
  unfold name_attr. rewrite Ha. destruct (decide (0 < size (elements view))); by simplify_eq.
Qed.

Lemma valid_view_Ok path node s :
  valid_view node = true ->
  exists s', loadView' path node tt s = (Ok tt, s').
Proof.
  unfold valid_view, loadView. unfold_M.
  destruct (Pugi.attribute node "name"); [|discriminate].
  intros Hv. unfold parseView.
  edestruct (valid_elements_Ok _ Hv) as (view & s' & ->).
  destruct (decide (0 < size (elements view))); by eexists.
Qed.

Lemma valid_views_Ok path l :
  forallb valid_view l = true ->
  forall s, exists s', for_each (loadView' path) l tt s = (Ok tt, s').
Proof.
  induction l as [|x l IH]; intros Hl s; [by eexists|].
  simpl in Hl. apply andb_true_iff in Hl as [Hx Hl].
  destruct (valid_view_Ok path x s Hx) as (s1 & H1).
  destruct (IH Hl s1) as (s' & H2).
  exists s'. rewrite for_each_cons. by rewrite (bind_Ok _ _ _ _ _ H1).
Qed.

(** The loop over the views keeps the file name and the version, and the
    entry of every name that none of the visited views carries. *)
Lemma views_loop path l :
  forall s s',
  for_each (loadView' path) l tt s = (Ok tt, s') ->
  mPath (self s') = mPath (self s)
  /\ mVersion (self s') = mVersion (self s)
  /\ (forall n, (forall x, x ∈ l -> name_attr x <> n) ->
       mViews (self s') !! n = mViews (self s) !! n).
Proof.
  induction l as [|x l IH]; intros s s' Hrun.
  - simpl in Hrun. unfold ret in Hrun. by simplify_eq.
  - rewrite for_each_cons in Hrun.
    apply bind_Ok_inv in Hrun as ([] & s1 & H1 & H2).
    apply loadView_Ok in H1 as (a & view & t & _ & _ & Ht & ->).
    apply IH in H2 as (Hp & Hv & Hm).
    destruct (decide (0 < size (elements view))) as [Hpos|Hpos]; simpl in *.
    + rewrite Hp, Hv, Ht. split; [done|]. split; [done|].
      intros n Hn. rewrite Hm by (intros y Hy; apply Hn; by right).
      simpl. rewrite Ht. apply lookup_insert_ne, Hn. by left.
    + rewrite Hp, Hv, Ht. split; [done|]. split; [done|].
      intros n Hn. rewrite Hm by (intros y Hy; apply Hn; by right).
      by rewrite Ht.
Qed.

(** *** Loading a document *)

(** [loadFile] once the file exists, parses, and has a [theme] root. *)
Lemma loadFile_doc path s doc root :
  fs_exists path = true ->
  load_file path = Pugi.ParseOk doc ->
  Pugi.find_child "theme" doc = Some root ->
  loadFile' path s =
  let v := text_as_float' (Pugi.child root "version") (F32.of_int (-404)) in
  if F32.eqb v (F32.of_int (-404)) then
    (Throw (error_in path (VersionTagMissing CURRENT_THEME_VERSION)), opened path v s)
  else if F32.ltb v (F32.of_int MINIMUM_THEME_VERSION) then
    (Throw (error_in path (VersionTooOld v MINIMUM_THEME_VERSION)), opened path v s)
  else for_each (loadView' path) (Pugi.children_named root "view") tt (opened path v s).
Proof.
  intros Hex Hload Hroot. unfold loadFile. unfold_M. simpl.
  rewrite Hex, Hload, Hroot. simpl.
  destruct (F32.eqb _ _); [done|]. by destruct (F32.ltb _ _).
Qed.

Lemma eqb_finite v sg m e :
  F32.eqb v (S754_finite sg m e) = true -> v = S754_finite sg m e.
Proof.
  unfold F32.eqb, SFeqb, SFcompare.
  destruct v as [s'|s'| |s' m' e']; try (destruct sg; discriminate);
    try (destruct s'; discriminate); try discriminate.
  destruct s', sg; try discriminate.
  - destruct (Z.compare_spec e' e); try discriminate. subst.
    destruct (Pos.compare_cont Eq m' m) eqn:Hc; try discriminate.
    apply Pos.compare_eq in Hc. by subst.
  - destruct (Z.compare_spec e' e); try discriminate. subst.
    destruct (Pos.compare_cont Eq m' m) eqn:Hc; try discriminate.
    apply Pos.compare_eq in Hc. by subst.
Qed.

(** C1 (amended). A load that fails because the file is missing leaves the
    stored version and views as they were (only the file name is updated).
    Once the file exists, the version is reset and the views are cleared
    before the document is read, so whatever happens next, failure
    included, the load leaves what it would leave in a freshly constructed
    theme object: nothing of the previous version and views survives. *)
Theorem load_failure_state path s :
  (fs_exists path = false ->
     loadFile' path s
     = (Throw (error_in path MissingFile),
        {| self := set_mPath path (self s); log := log s |}))
  /\ (fs_exists path = true ->
      loadFile' path s = loadFile' path {| self := ThemeData_new; log := log s |})
  /\ (fs_exists path = true ->
      forall description, load_file path = Pugi.ParseError description ->
      loadFile' path s
      = (Throw (error_in path (XmlParsingError description)),
         opened path (F32.of_int 0) s))
  /\ (fs_exists path = true ->
      forall doc, load_file path = Pugi.ParseOk doc ->
      Pugi.find_child "theme" doc = None ->
      loadFile' path s
      = (Throw (error_in path MissingThemeTag), opened path (F32.of_int 0) s)).
Proof.
  split; [|split; [|split]].
  - intros Hex. unfold loadFile. unfold_M. simpl. by rewrite Hex.
  - intros Hex. unfold loadFile. unfold_M. simpl. by rewrite Hex.
  - intros Hex description Hload. unfold loadFile. unfold_M. simpl.
    by rewrite Hex, Hload.
  - intros Hex doc Hload Hroot. unfold loadFile. unfold_M. simpl.
    by rewrite Hex, Hload, Hroot.
Qed.

(** C2 (amended). For a document with a [theme] root: without a [version]
    child the load throws the version-missing error; with a declared version
    that is below 3 and is not -404 it throws the version-too-old error,
    carrying the declared and the minimum version; with a declared version
    equal to 3 and views that are all acceptable it succeeds. *)
Theorem version_gate path s doc root :
  fs_exists path = true ->
  load_file path = Pugi.ParseOk doc ->
  Pugi.find_child "theme" doc = Some root ->
  (Pugi.child root "version" = None ->
     fst (loadFile' path s)
     = Throw (error_in path (VersionTagMissing CURRENT_THEME_VERSION)))
  /\ (forall d, Pugi.text (Pugi.child root "version") = Some d ->
      let declared := F32.of_double (strtod (Pugi.value d)) in
      (F32.ltb declared (F32.of_int 3) = true ->
       F32.eqb declared (F32.of_int (-404)) = false ->
         fst (loadFile' path s) = Throw (error_in path (VersionTooOld declared 3)))
      /\ (F32.eqb declared (F32.of_int 3) = true ->
          forallb valid_view (Pugi.children_named root "view") = true ->
            fst (loadFile' path s) = Ok tt)).
Proof.
  intros Hex Hload Hroot. rewrite (loadFile_doc _ _ _ _ Hex Hload Hroot).
  unfold text_as_float. split; [|intros d Hd; split].
  - intros Hnone. rewrite Hnone. reflexivity.
  - intros Hlt Hne. simpl. rewrite Hd.
    rewrite Hne. unfold MINIMUM_THEME_VERSION. by rewrite Hlt.
  - intros Heq Hvalid. simpl. rewrite Hd.
    apply eqb_finite in Heq. rewrite Heq.
    change (F32.eqb _ (F32.of_int (-404))) with false.
    change (F32.ltb _ (F32.of_int MINIMUM_THEME_VERSION)) with false.
    cbv iota.
    edestruct (valid_views_Ok path _ Hvalid) as (s' & ->). reflexivity.
Qed.

(** C10. A [version] child is present and its text reads as the [float]
    -404: the load throws the version-missing error, the one raised for an
    absent tag, and not the version-too-old error. *)
Theorem version_sentinel_collision path s doc root vnode d :
  fs_exists path = true ->
  load_file path = Pugi.ParseOk doc ->
  Pugi.find_child "theme" doc = Some root ->
  Pugi.child root "version" = Some vnode ->
  Pugi.text (Some vnode) = Some d ->
  F32.eqb (F32.of_double (strtod (Pugi.value d))) (F32.of_int (-404)) = true ->
  fst (loadFile' path s)
  = Throw (error_in path (VersionTagMissing CURRENT_THEME_VERSION))
  /\ forall actual minimum,
       fst (loadFile' path s) <> Throw (error_in path (VersionTooOld actual minimum)).
Proof.
  intros Hex Hload Hroot Hv Hd Heq.
  rewrite (loadFile_doc _ _ _ _ Hex Hload Hroot).
  unfold text_as_float. simpl. rewrite Hv, Hd, Heq. simpl. split; [done|].
  intros actual minimum. discriminate.
Qed.

(** *** Where a load stops *)

Lemma parseProperty_unknown root typeMap node element s :
  typeMap !! Pugi.name node = None ->
  parseProperty' root typeMap node element s
  = (Throw (error_in (mPath (self s))
              (UnknownPropertyType (Pugi.name node) (Pugi.name root))), s).
Proof. intros H. unfold parseProperty. unfold_M. simpl. by rewrite H. Qed.

Lemma parseElement_unknown_property root typeMap ps1 p ps2 s :
  Pugi.children root = (ps1 ++ p :: ps2)%list ->
  forallb (valid_property typeMap) ps1 = true ->
  typeMap !! Pugi.name p = None ->
  exists s',
    parseElement' root typeMap s
    = (Throw (error_in (mPath (self s))
                (UnknownPropertyType (Pugi.name p) (Pugi.name root))), s').
Proof.
  intros Hch Hvalid Hp. unfold parseElement. rewrite Hch.
  edestruct (valid_properties_Ok root typeMap ps1 Hvalid) as (el1 & s1 & H1).
  exists s1. eapply for_each_Throw_at; [exact H1|].
  rewrite parseProperty_unknown by done.
  by apply properties_loop in H1 as (-> & _).
Qed.

Lemma elements_loop_self l view s view' s' :
  for_each parseViewChild' l view s = (Ok view', s') -> self s' = self s.
Proof.
  apply (for_each_Ok_inv _ (fun _ t => self t = self s)); [|done].
  intros x a t a' t' _ Ht Hstep.
  apply parseViewChild_Ok in Hstep as (_ & typeMap & el & _ & _ & Hel & _).
  apply parseElement_Ok in Hel as [_ Hself]. congruence.
Qed.

(** [parseView] throws what its loop body throws on the first child that
    is not acceptable. *)
Lemma parseView_Throw_at root es1 e es2 ex s :
  Pugi.children root = (es1 ++ e :: es2)%list ->
  forallb valid_element es1 = true ->
  (forall view t, mPath (self t) = mPath (self s) ->
     exists t', parseViewChild' e view t = (Throw ex, t')) ->
  exists s', parseView' root s = (Throw ex, s').
Proof.
  intros Hch Hvalid Hthrow. unfold parseView. rewrite Hch.
  edestruct (valid_elements_Ok es1 Hvalid) as (view1 & s1 & H1).
  destruct (Hthrow view1 s1) as (s2 & H2).
  { apply elements_loop_self in H1. by rewrite H1. }
  exists s2. eapply for_each_Throw_at; [exact H1 | exact H2].
Qed.

(** [loadFile] throws what [parseView] throws on the first view that is
    not acceptable. *)
Lemma loadFile_Throw_at path s doc root vs1 v vs2 ex :
  fs_exists path = true ->
  load_file path = Pugi.ParseOk doc ->
  Pugi.find_child "theme" doc = Some root ->
  let version := text_as_float' (Pugi.child root "version") (F32.of_int (-404)) in
  F32.eqb version (F32.of_int (-404)) = false ->
  F32.ltb version (F32.of_int MINIMUM_THEME_VERSION) = false ->
  Pugi.children_named root "view" = (vs1 ++ v :: vs2)%list ->
  forallb valid_view vs1 = true ->
  is_Some (Pugi.attribute v "name") ->
  (forall t, mPath (self t) = path -> exists t', parseView' v t = (Throw ex, t')) ->
  fst (loadFile' path s) = Throw ex.
Proof.
  intros Hex Hload Hroot version Hne Hlt Hviews Hvalid [a Ha] Hthrow.
  rewrite (loadFile_doc _ _ _ _ Hex Hload Hroot). cbv zeta. fold version.
  rewrite Hne, Hlt, Hviews.
  destruct (valid_views_Ok path vs1 Hvalid (opened path version s)) as (s1 & H1).
  destruct (Hthrow s1) as (s2 & H2).
  { by apply views_loop in H1 as (-> & _). }
  erewrite for_each_Throw_at; [reflexivity | exact H1 |].
  unfold loadView. rewrite Ha. by apply bind_Throw.
Qed.

(** C6 (amended). During a load that has passed the document-level checks
    and has accepted everything before it, an element child that carries a
    [name] attribute and whose tag is not an element type of the registry
    makes the load throw the unknown-element error; and a property child,
    of an element of a registered type, whose tag is not a key of that
    type's schema makes the load throw the unknown-property error. *)
Theorem unknown_tags_abort_load path s doc root vs1 v vs2 es1 e es2 :
  fs_exists path = true ->
  load_file path = Pugi.ParseOk doc ->
  Pugi.find_child "theme" doc = Some root ->
  let version := text_as_float' (Pugi.child root "version") (F32.of_int (-404)) in
  F32.eqb version (F32.of_int (-404)) = false ->
  F32.ltb version (F32.of_int MINIMUM_THEME_VERSION) = false ->
  Pugi.children_named root "view" = (vs1 ++ v :: vs2)%list ->
  forallb valid_view vs1 = true ->
  is_Some (Pugi.attribute v "name") ->
  Pugi.children v = (es1 ++ e :: es2)%list ->
  forallb valid_element es1 = true ->
  is_Some (Pugi.attribute e "name") ->
  (sElementMap !! Pugi.name e = None ->
     fst (loadFile' path s) = Throw (error_in path (UnknownElement (Pugi.name e))))
  /\ (forall typeMap ps1 p ps2,
        sElementMap !! Pugi.name e = Some typeMap ->
        Pugi.children e = (ps1 ++ p :: ps2)%list ->
        forallb (valid_property typeMap) ps1 = true ->
        typeMap !! Pugi.name p = None ->
        fst (loadFile' path s)
        = Throw (error_in path (UnknownPropertyType (Pugi.name p) (Pugi.name e)))).
Proof.
  intros Hex Hload Hroot version Hne Hlt Hviews Hvs1 Hv Hch Hes1 [a Ha].
  split.
  - intros Hunknown.
    eapply loadFile_Throw_at; try done.
    intros t Ht. eapply parseView_Throw_at; try done.
    intros view t1 Ht1. exists t1.
    unfold parseViewChild. unfold_M. simpl. rewrite Ha, Hunknown. congruence.
  - intros typeMap ps1 p ps2 Hty Hps Hps1 Hp.
    eapply loadFile_Throw_at; try done.
    intros t Ht. eapply parseView_Throw_at; try done.
    intros view t1 Ht1.
    destruct (parseElement_unknown_property e typeMap ps1 p ps2 t1 Hps Hps1 Hp)
      as (t2 & H2).
    exists t2. unfold parseViewChild. unfold_M. simpl. rewrite Ha, Hty, H2.
    congruence.
Qed.

(** C7 (amended). In a successfully loaded document, a view node whose
    name no other view node shares is held by the view mapping, under its
    name, if and only if [parseView] yielded at least one element for it;
    with zero elements its name is not a key of the mapping. *)
Theorem view_stored_iff_nonempty path s s' doc root vs1 v vs2 :
  fs_exists path = true ->
  load_file path = Pugi.ParseOk doc ->
  Pugi.find_child "theme" doc = Some root ->
  Pugi.children_named root "view" = (vs1 ++ v :: vs2)%list ->
  (forall x, x ∈ (vs1 ++ vs2)%list -> name_attr x <> name_attr v) ->
  loadFile' path s = (Ok tt, s') ->
  exists view,
    view_of' path v = Ok view
    /\ (mViews (self s') !! name_attr v = Some view <-> 0 < size (elements view))
    /\ (mViews (self s') !! name_attr v = None <-> size (elements view) = 0).
Proof.
  intros Hex Hload Hroot Hviews Huniq Hrun.
  rewrite (loadFile_doc _ _ _ _ Hex Hload Hroot) in Hrun. cbv zeta in Hrun.
  destruct (F32.eqb _ _); [discriminate|].
  destruct (F32.ltb _ _); [discriminate|].
  rewrite Hviews, for_each_app in Hrun.
  apply bind_Ok_inv in Hrun as ([] & s1 & H1 & Hrun).
  rewrite for_each_cons in Hrun.
  apply bind_Ok_inv in Hrun as ([] & s2 & H2 & H3).
  apply views_loop in H1 as (Hp1 & _ & Hm1).
  apply views_loop in H3 as (_ & _ & Hm3).
  apply loadView_Ok in H2 as (a & view & t & _ & Hview & Ht & ->).
  exists view. split.
  { pose proof (parseView_view_of v s1) as Hvo.
    rewrite Hview, Hp1 in Hvo. by simpl in Hvo. }
  rewrite Hm3 by (intros x Hx; apply Huniq, elem_of_app; by right).
  assert (mViews (self t) !! name_attr v = None) as Hnone.
  { rewrite Ht, Hm1 by (intros x Hx; apply Huniq, elem_of_app; by left).
    apply lookup_empty. }
  destruct (decide (0 < size (elements view))) as [Hpos|Hpos]; simpl.
  - rewrite lookup_insert_eq.
    split; split; intros; try done; exfalso; lia.
  - rewrite Hnone.
    split; split; intros; try done; try lia; exfalso; lia.
Qed.

(** C9. After a successful load, every stored view comes from a view node
    of the document with that name, every element of it from an element
    child of that node with that name, and for every property stored in the
    element the tag of the stored value is the one of the type that the
    registry declares for this property name under the tag of that element
    child. *)
Theorem stored_tag_matches_schema path s s' doc root :
  fs_exists path = true ->
  load_file path = Pugi.ParseOk doc ->
  Pugi.find_child "theme" doc = Some root ->
  loadFile' path s = (Ok tt, s') ->
  forall vn view, mViews (self s') !! vn = Some view ->
    exists vnode,
      vnode ∈ Pugi.children_named root "view"
      /\ name_attr vnode = vn
      /\ forall en el, elements view !! en = Some el ->
           exists enode typeMap,
             enode ∈ Pugi.children vnode
             /\ name_attr enode = en
             /\ sElementMap !! Pugi.name enode = Some typeMap
             /\ forall n val, properties el !! n = Some val ->
                  exists ty, typeMap !! n = Some ty /\ has_type val ty.
Proof.
  intros Hex Hload Hroot Hrun.
  rewrite (loadFile_doc _ _ _ _ Hex Hload Hroot) in Hrun. cbv zeta in Hrun.
  destruct (F32.eqb _ _); [discriminate|].
  destruct (F32.ltb _ _); [discriminate|].
  assert (views_typed (Pugi.children_named root "view") (mViews (self s'))) as Htyped.
  { revert Hrun.
    apply (for_each_Ok_inv _
             (fun _ t => views_typed (Pugi.children_named root "view") (mViews (self t)))).
    - intros x [] t [] t' Hx Ht Hstep.
      apply loadView_Ok in Hstep as (a & view & t1 & _ & Hview & Ht1 & ->).
      apply parseView_Ok in Hview as [Hvt _].
      destruct (decide (0 < size (elements view))); simpl; [|by rewrite Ht1].
      intros vn view'. rewrite lookup_insert. case_decide as Hn.
      + intros [= <-]. by exists x.
      + rewrite Ht1. apply Ht.
    - intros vn view. simpl. by rewrite lookup_empty. }
  intros vn view Hlookup.
  destruct (Htyped vn view Hlookup) as (vnode & Hin & Hname & Hvt).
  exists vnode. split; [done|]. split; [done|].
  intros en el Hel. destruct (Hvt en el Hel) as (enode & Hin' & Hname' & typeMap & Hty & Hwt).
  by exists enode, typeMap.
Qed.

(** *** Loops, whatever their outcome *)

(** A loop that throws throws what its body throws on one of the elements,
    in a state that satisfies every invariant of the successful steps. *)
Lemma for_each_Throw_inv {A B} (body : B -> A -> M A) (J : State -> Prop) l :
  (forall x a s a' s', J s -> body x a s = (Ok a', s') -> J s') ->
  forall a s e s', J s -> for_each body l a s = (Throw e, s') ->
    exists x a1 s1, x ∈ l /\ J s1 /\ body x a1 s1 = (Throw e, s').
Proof.
  intros Hbody. induction l as [|x l IH]; intros a s e s' HJ Hrun.
  - simpl in Hrun. unfold ret in Hrun. discriminate.
  - rewrite for_each_cons in Hrun. unfold mbind, M_bind, bind in Hrun.
    destruct (body x a s) as [[a1|e1] s1] eqn:Hstep.
    + destruct (IH a1 s1 e s' (Hbody _ _ _ _ _ HJ Hstep) Hrun)
        as (y & a2 & s2 & Hy & HJ2 & H2).
      exists y, a2, s2. split; [by right | done].
    + simplify_eq. exists x, a, s. split; [by left | done].
Qed.

(** Every element a successful loop went through was accepted by the
    body. *)
Lemma for_each_Ok_Forall {A B} (body : B -> A -> M A) (P : B -> Prop) l :
  (forall x a s a' s', body x a s = (Ok a', s') -> P x) ->
  forall a s a' s', for_each body l a s = (Ok a', s') -> Forall P l.
Proof.
  intros Hbody. induction l as [|x l IH]; intros a s a' s' Hrun; [constructor|].
  rewrite for_each_cons in Hrun.
  apply bind_Ok_inv in Hrun as (a1 & s1 & H1 & H2).
  constructor; eauto.
Qed.

(** Two loops with different bodies, run from related states. *)
Lemma for_each_related2 {A B} (body1 body2 : B -> A -> M A)
    (R : State -> State -> Prop) l :
  (forall x a s1 s2, R s1 s2 ->
     fst (body1 x a s1) = fst (body2 x a s2)
     /\ R (snd (body1 x a s1)) (snd (body2 x a s2))) ->
  forall a s1 s2, R s1 s2 ->
    fst (for_each body1 l a s1) = fst (for_each body2 l a s2)
    /\ R (snd (for_each body1 l a s1)) (snd (for_each body2 l a s2)).
Proof.
  intros Hbody. induction l as [|x l IH]; intros a s1 s2 HR; [done|].
  rewrite !for_each_cons. unfold mbind, M_bind, bind.
  destruct (Hbody x a s1 s2 HR) as [Hf Hs].
  destruct (body1 x a s1) as [r1 t1], (body2 x a s2) as [r2 t2].
  simpl in Hf, Hs. subst r2. destruct r1 as [a1|e]; [by apply IH | done].
Qed.

(** *** The parsers leave the theme object alone *)

Lemma parseProperty_log root typeMap node element s :
  log s `prefix_of` log (snd (parseProperty' root typeMap node element s))
  /\ ((forall p, fs_exists p = true) ->
      log (snd (parseProperty' root typeMap node element s)) = log s).
Proof.
  unfold parseProperty. unfold_M. simpl.
  destruct (typeMap !! Pugi.name node) as [[]|]; simpl; try done.
  - by case_call CStr.find.
  - destruct (fs_exists _) eqn:Hex; simpl; [done|]. split.
    + by apply prefix_app_r.
    + intros Hall. by rewrite Hall in Hex.
  - by case_call getHexColor.
Qed.

Lemma kept_refl s : kept' s s.
Proof. by split. Qed.

Lemma kept_trans s t u : kept' s t -> kept' t u -> kept' s u.
Proof.
  intros (H1 & H2 & H3) (H4 & H5 & H6). split; [congruence|]. split.
  - by etrans.
  - intros Hall. rewrite H6, H3; done.
Qed.

Lemma for_each_kept {A B} (body : B -> A -> M A) l :
  (forall x a s, kept' s (snd (body x a s))) ->
  forall a s, kept' s (snd (for_each body l a s)).
Proof.
  intros Hbody a s.
  apply (for_each_state body (kept' s)); [|apply kept_refl].
  intros x b t _ Ht. eapply kept_trans; [exact Ht | apply Hbody].
Qed.

Lemma parseProperty_kept root typeMap node element s :
  kept' s (snd (parseProperty' root typeMap node element s)).
Proof.
  split; [apply parseProperty_self | apply parseProperty_log].
Qed.

Lemma parseElement_kept root typeMap s :
  kept' s (snd (parseElement' root typeMap s)).
Proof. apply for_each_kept. intros. apply parseProperty_kept. Qed.

Lemma parseViewChild_kept node view s :
  kept' s (snd (parseViewChild' node view s)).
Proof.
  unfold parseViewChild. unfold_M. simpl.
  destruct (Pugi.attribute node "name"); [|apply kept_refl].
  destruct (sElementMap !! Pugi.name node) as [typeMap|]; [|apply kept_refl].
  pose proof (parseElement_kept node typeMap s) as H.
  by destruct (parseElement' node typeMap s) as [[el|e] s1].
Qed.

Lemma parseView_kept root s : kept' s (snd (parseView' root s)).
Proof.
  apply (for_each_kept parseViewChild'). intros. apply parseViewChild_kept.
Qed.

(** *** Loads whose path properties all resolve to existing files *)

Lemma parseProperty_quiet root typeMap node element s :
  property_path_exists' (mPath (self s)) typeMap node = true ->
  log (snd (parseProperty' root typeMap node element s)) = log s.
Proof.
  unfold property_path_exists, parseProperty. unfold_M. simpl.
  destruct (typeMap !! Pugi.name node) as [[]|]; simpl; try done.
  - by case_call CStr.find.
  - by intros ->.
  - by case_call getHexColor.
Qed.

Lemma parseElement_quiet root typeMap s :
  forallb (property_path_exists' (mPath (self s)) typeMap) (Pugi.children root) = true ->
  log (snd (parseElement' root typeMap s)) = log s.
Proof.
  intros Hall. unfold parseElement.
  apply (for_each_state (parseProperty' root typeMap)
           (fun t => self t = self s /\ log t = log s)); [|done].
  intros x a t Hx [Hself Hlog]. rewrite parseProperty_self. split; [done|].
  rewrite parseProperty_quiet; [done|]. rewrite Hself.
  rewrite forallb_forall in Hall. apply Hall. by apply list_elem_of_In.
Qed.

Lemma parseViewChild_quiet node view s :
  element_paths_exist' (mPath (self s)) node = true ->
  log (snd (parseViewChild' node view s)) = log s.
Proof.
  unfold element_paths_exist, parseViewChild. unfold_M. simpl.
  destruct (Pugi.attribute node "name"); [|done].
  destruct (sElementMap !! Pugi.name node) as [typeMap|]; [|done].
  intros Hall. pose proof (parseElement_quiet node typeMap s Hall) as H.
  by destruct (parseElement' node typeMap s) as [[el|e] s1].
Qed.

Lemma parseView_quiet root s :
  view_paths_exist' (mPath (self s)) root = true ->
  log (snd (parseView' root s)) = log s.
Proof.
  intros Hall. unfold parseView.
  apply (for_each_state parseViewChild'
           (fun t => self t = self s /\ log t = log s)); [|done].
  intros x a t Hx [Hself Hlog].
  destruct (parseViewChild_kept x a t) as (Hkeep & _). split; [congruence|].
  rewrite parseViewChild_quiet; [done|]. rewrite Hself.
  unfold view_paths_exist in Hall. rewrite forallb_forall in Hall.
  apply Hall. by apply list_elem_of_In.
Qed.

(** X1. [parseView] (and with it [parseElement]) never changes the theme
    object, whether it returns or throws; all it may do to the state is
    append warnings to the log, and it appends none when the file of every
    path property in the view exists. *)
Theorem parseView_leaves_theme root s :
  let after :=
    snd (parseView strtod istream_hex fs_exists getHomePath parent_path root s) in
  self after = self s
  /\ log s `prefix_of` log after
  /\ (view_paths_exist fs_exists getHomePath parent_path (mPath (self s)) root = true ->
      log after = log s).
Proof.
  cbv zeta. destruct (parseView_kept root s) as (H1 & H2 & _).
  split; [done|]. split; [done|]. apply parseView_quiet.
Qed.

(** *** What a parsed element and a parsed view hold *)

Lemma properties_loop_keys root typeMap l :
  forall element s element' s',
  for_each (parseProperty' root typeMap) l element s = (Ok element', s') ->
  type element' = type element
  /\ forall n, is_Some (properties element' !! n)
       <-> is_Some (properties element !! n) \/ exists x, x ∈ l /\ Pugi.name x = n.
Proof.
  induction l as [|x l IH]; intros element s element' s' Hrun.
  - simpl in Hrun. unfold ret in Hrun. simplify_eq. split; [done|].
    intros n. split; [by left|]. intros [H|(x & Hx & _)]; [done|].
    by apply elem_of_nil in Hx.
  - rewrite for_each_cons in Hrun.
    apply bind_Ok_inv in Hrun as (e1 & s1 & H1 & H2).
    apply parseProperty_Ok in H1 as (ty & v & _ & _ & -> & _).
    apply IH in H2 as (Hty & Hkeys). split; [done|].
    intros n. rewrite Hkeys. simpl. rewrite lookup_insert. split.
    + intros [H|(y & Hy & Hn)].
      * case_decide as Hx; [right; exists x; split; [by left | done] | by left].
      * right. exists y. split; [by right | done].
    + intros [H|(y & Hy & Hn)].
      * left. case_decide; [by eexists | done].
      * apply elem_of_cons in Hy as [->|Hy].
        -- left. rewrite decide_True by done. by eexists.
        -- right. by exists y.
Qed.

(** X2. The element [parseElement] returns has the [extra] flag read from
    the attribute (false without it), an empty [type], and holds a property
    under a name exactly when one of its child nodes has that name as its
    tag. *)
Theorem parseElement_shape root typeMap s el s' :
  parseElement' root typeMap s = (Ok el, s') ->
  extra el = Pugi.attribute_as_bool (Pugi.attribute root "extra") false
  /\ type el = ""
  /\ forall n, Element.has el n = true
       <-> exists x, x ∈ Pugi.children root /\ Pugi.name x = n.
Proof.
  unfold parseElement. intros Hrun.
  pose proof (properties_loop _ _ _ _ _ _ _ Hrun) as (_ & Hextra & _).
  pose proof (properties_loop_keys _ _ _ _ _ _ _ Hrun) as (Htype & Hkeys).
  split; [done|]. split; [done|].
  intros n. unfold Element.has. specialize (Hkeys n). simpl in Hkeys.
  rewrite lookup_empty in Hkeys.
  destruct (properties el !! n) as [v|].
  - split; [|done]. intros _. destruct Hkeys as [Hk _].
    destruct (Hk ltac:(by eexists)) as [[? [=]]|H]; done.
  - split; [discriminate|]. intros H. destruct Hkeys as [_ Hk].
    destruct (Hk (or_intror H)) as [? [=]].
Qed.

Lemma has_type_which v ty : has_type v ty -> Element.which v = Element.stored_as ty.
Proof. by destruct ty, v. Qed.

(** X3. After [parseElement] under a schema, the typed accessor
    [get<T>] of a stored property returns its value when [T] is the C++ type
    of the property's declared type and throws [bad_get] for every other
    [T]; for a name that [has] reports as absent it throws [out_of_range]. *)
Theorem typed_get_after_parse root typeMap s el s' :
  parseElement' root typeMap s = (Ok el, s') ->
  forall n,
    (Element.has el n = false -> forall T, Element.get T el n = Element.out_of_range)
    /\ (Element.has el n = true ->
        exists ty v,
          typeMap !! n = Some ty
          /\ Element.get (Element.stored_as ty) el n = Element.Got v
          /\ forall T, T <> Element.stored_as ty -> Element.get T el n = Element.bad_get).
Proof.
  intros Hrun n. apply parseElement_Ok in Hrun as [Hwt _].
  unfold Element.has, Element.get.
  destruct (properties el !! n) as [v|] eqn:Hv.
  - split; [discriminate|]. intros _.
    destruct (Hwt n v Hv) as (ty & Hty & Htag). apply has_type_which in Htag.
    exists ty, v. split; [done|]. split.
    + by rewrite decide_True.
    + intros T HT. rewrite decide_False; [done | congruence].
  - split; [done | discriminate].
Qed.

Lemma elements_loop l :
  forall view s view' s',
  for_each parseViewChild' l view s = (Ok view', s') ->
  (forall n, (forall x, x ∈ l -> name_attr x <> n) ->
     elements view' !! n = elements view !! n)
  /\ (forall n, is_Some (elements view' !! n)
       <-> is_Some (elements view !! n) \/ exists x, x ∈ l /\ name_attr x = n).
Proof.
  induction l as [|x l IH]; intros view s view' s' Hrun.
  - simpl in Hrun. unfold ret in Hrun. simplify_eq. split; [done|].
    intros n. split; [by left|]. intros [H|(x & Hx & _)]; [done|].
    by apply elem_of_nil in Hx.
  - rewrite for_each_cons in Hrun.
    apply bind_Ok_inv in Hrun as (v1 & s1 & H1 & H2).
    apply parseViewChild_Ok in H1 as (a & typeMap & el & _ & _ & _ & ->).
    apply IH in H2 as (Hkeep & Hkeys). split.
    + intros n Hn. rewrite Hkeep by (intros y Hy; apply Hn; by right).
      simpl. apply lookup_insert_ne. apply Hn. by left.
    + intros n. rewrite Hkeys. simpl. rewrite lookup_insert.
      fold (name_attr x). split.
      * intros [H|(y & Hy & Hn)].
        -- case_decide as Hx; [right; exists x; split; [by left | done] | by left].
        -- right. exists y. split; [by right | done].
      * intros [H|(y & Hy & Hn)].
        -- left. case_decide; [by eexists | done].
        -- apply elem_of_cons in Hy as [->|Hy].
           ++ left. rewrite decide_True by done. by eexists.
           ++ right. by exists y.
Qed.

(** X4. The view [parseView] returns holds an element under a name
    exactly when one of the view's child nodes carries that name; and of the
    child nodes carrying one name the last one wins: the element stored
    under its name is the one [parseElement] returns for it. *)
Theorem parseView_last_element_wins root s view s' :
  parseView' root s = (Ok view, s') ->
  (forall n, is_Some (elements view !! n)
     <-> exists x, x ∈ Pugi.children root /\ name_attr x = n)
  /\ (forall es1 e es2,
        Pugi.children root = (es1 ++ e :: es2)%list ->
        (forall x, x ∈ es2 -> name_attr x <> name_attr e) ->
        exists typeMap el,
          sElementMap !! Pugi.name e = Some typeMap
          /\ fst (parseElement' e typeMap s) = Ok el
          /\ elements view !! name_attr e = Some el).
Proof.
  unfold parseView. intros Hrun. split.
  - intros n. pose proof (elements_loop _ _ _ _ _ Hrun) as (_ & Hkeys).
    rewrite (Hkeys n). simpl. rewrite lookup_empty. split.
    + intros [[? [=]]|H]; done.
    + intros H. by right.
  - intros es1 e es2 Hch Hlast. rewrite Hch, for_each_app in Hrun.
    apply bind_Ok_inv in Hrun as (v1 & s1 & H1 & Hrun).
    rewrite for_each_cons in Hrun.
    apply bind_Ok_inv in Hrun as (v2 & s2 & H2 & H3).
    apply elements_loop_self in H1.
    apply parseViewChild_Ok in H2 as (a & typeMap & el & _ & Hty & Hel & ->).
    apply elements_loop in H3 as (Hkeep & _).
    exists typeMap, el. split; [done|]. split.
    + destruct (parseElement_related e typeMap s s1) as [Hf _].
      { unfold same_path. by rewrite H1. }
      by rewrite Hf, Hel.
    + rewrite (Hkeep _ Hlast). simpl. apply lookup_insert_eq.
Qed.

(** *** When a load succeeds *)

Lemma value_of_Ok_valid path typeMap ty node v :
  typeMap !! Pugi.name node = Some ty ->
  value_of' path ty node = Ok v ->
  valid_property typeMap node = true.
Proof.
  intros Hty. unfold valid_property, value_of. rewrite Hty.
  destruct ty; try done.
  - unfold CStr.contains. by case_call CStr.find.
  - unfold getHexColor.
    destruct (String.length _ =? 6)%nat, (String.length _ =? 8)%nat; done.
Qed.

Lemma parseElement_Ok_valid root typeMap s el s' :
  parseElement' root typeMap s = (Ok el, s') ->
  forallb (valid_property typeMap) (Pugi.children root) = true.
Proof.
  unfold parseElement. intros Hrun. apply forallb_forall.
  apply (for_each_Ok_Forall _ (fun x => valid_property typeMap x = true)) in Hrun.
  - intros x Hx. rewrite Forall_forall in Hrun. apply Hrun. by apply list_elem_of_In.
  - intros x a t a' t' Hstep.
    apply parseProperty_Ok in Hstep as (ty & v & Hty & Hv & _).
    eauto using value_of_Ok_valid.
Qed.

Lemma parseView_Ok_valid root s view s' :
  parseView' root s = (Ok view, s') ->
  forallb valid_element (Pugi.children root) = true.
Proof.
  unfold parseView. intros Hrun. apply forallb_forall.
  apply (for_each_Ok_Forall _ (fun x => valid_element x = true)) in Hrun.
  - intros x Hx. rewrite Forall_forall in Hrun. apply Hrun. by apply list_elem_of_In.
  - intros x a t a' t' Hstep.
    apply parseViewChild_Ok in Hstep as (nm & typeMap & el & Hnm & Hty & Hel & _).
    unfold valid_element. rewrite Hnm, Hty. eauto using parseElement_Ok_valid.
Qed.

Lemma views_Ok_valid path l s s' :
  for_each (loadView' path) l tt s = (Ok tt, s') ->
  forallb valid_view l = true.
Proof.
  intros Hrun. apply forallb_forall.
  apply (for_each_Ok_Forall _ (fun x => valid_view x = true)) in Hrun.
  - intros x Hx. rewrite Forall_forall in Hrun. apply Hrun. by apply list_elem_of_In.
  - intros x [] t [] t' Hstep.
    apply loadView_Ok in Hstep as (a & view & t1 & Ha & Hview & _).
    unfold valid_view. rewrite Ha. eauto using parseView_Ok_valid.
Qed.

(** X5. [loadFile] returns without throwing exactly when the file exists,
    parses, has a [theme] root, declares a version that is neither -404 nor
    below the minimum, and every [view] child is acceptable: it is named,
    each of its children is named and has a registered tag, each property
    child has a tag of that type's schema, each pair holds a space and
    each colour has 6 or 8 characters. *)
Theorem load_succeeds_iff path s :
  fst (loadFile' path s) = Ok tt
  <-> fs_exists path = true
      /\ exists doc root,
           load_file path = Pugi.ParseOk doc
           /\ Pugi.find_child "theme" doc = Some root
           /\ F32.eqb (text_as_float' (Pugi.child root "version") (F32.of_int (-404)))
                      (F32.of_int (-404)) = false
           /\ F32.ltb (text_as_float' (Pugi.child root "version") (F32.of_int (-404)))
                      (F32.of_int MINIMUM_THEME_VERSION) = false
           /\ forallb valid_view (Pugi.children_named root "view") = true.
Proof.
  split.
  - intros Hrun. destruct (fs_exists path) eqn:Hex.
    2:{ unfold loadFile in Hrun. unfold_M. simpl in Hrun. by rewrite Hex in Hrun. }
    split; [done|].
    destruct (load_file path) as [doc|d] eqn:Hload.
    2:{ unfold loadFile in Hrun. unfold_M. simpl in Hrun.
        by rewrite Hex, Hload in Hrun. }
    destruct (Pugi.find_child "theme" doc) as [root|] eqn:Hroot.
    2:{ unfold loadFile in Hrun. unfold_M. simpl in Hrun.
        by rewrite Hex, Hload, Hroot in Hrun. }
    exists doc, root. split; [done|]. split; [done|].
    rewrite (loadFile_doc _ _ _ _ Hex Hload Hroot) in Hrun. cbv zeta in Hrun.
    destruct (F32.eqb _ _); [discriminate|].
    destruct (F32.ltb _ _); [discriminate|].
    split; [done|]. split; [done|].
    destruct (for_each _ _ _ _) as [[[]|e] s'] eqn:Hloop; [|discriminate].
    eauto using views_Ok_valid.
  - intros (Hex & doc & root & Hload & Hroot & Hne & Hlt & Hvalid).
    rewrite (loadFile_doc _ _ _ _ Hex Hload Hroot). cbv zeta.
    rewrite Hne, Hlt.
    by edestruct (valid_views_Ok path _ Hvalid) as (s' & ->).
Qed.

(** *** What a load leaves behind *)

(** One step of the loop over the views, whatever its outcome. *)
Lemma loadView_state path node s :
  let t := snd (loadView' path node tt s) in
  log s `prefix_of` log t
  /\ ((forall p, fs_exists p = true) -> log t = log s)
  /\ mPath (self t) = mPath (self s)
  /\ mVersion (self t) = mVersion (self s)
  /\ (mViews (self t) = mViews (self s)
      \/ exists view,
           0 < size (elements view)
           /\ mViews (self t) = <[name_attr node := view]> (mViews (self s))).
Proof.
  unfold loadView. unfold_M.
  destruct (Pugi.attribute node "name") as [a|] eqn:Ha; simpl.
  2:{ split; [done|]. split; [done|]. split; [done|]. split; [done|]. by left. }
  destruct (parseView_kept node s) as (Hself & Hpre & Hall).
  destruct (parseView' node s) as [[view|e] s1]; simpl in *.
  2:{ rewrite Hself. split; [done|]. split; [done|]. split; [done|].
      split; [done|]. by left. }
  destruct (decide (0 < size (elements view))) as [Hpos|Hpos]; simpl.
  - rewrite Hself. split; [done|]. split; [done|]. split; [done|]. split; [done|].
    right. exists view. split; [done|]. unfold name_attr. by rewrite Ha.
  - rewrite Hself. split; [done|]. split; [done|]. split; [done|].
    split; [done|]. by left.
Qed.

(** What the loop over the views keeps, whatever its outcome. *)
Lemma views_loop_state path l s :
  let t := snd (for_each (loadView' path) l tt s) in
  log s `prefix_of` log t
  /\ ((forall p, fs_exists p = true) -> log t = log s)
  /\ mPath (self t) = mPath (self s)
  /\ mVersion (self t) = mVersion (self s)
  /\ (views_nonempty (self s) -> views_nonempty (self t)).
Proof.
  cbv zeta.
  apply (for_each_state (loadView' path)
           (fun t => log s `prefix_of` log t
                     /\ ((forall p, fs_exists p = true) -> log t = log s)
                     /\ mPath (self t) = mPath (self s)
                     /\ mVersion (self t) = mVersion (self s)
                     /\ (views_nonempty (self s) -> views_nonempty (self t)))).
  2:{ done. }
  intros x [] t _ (H1 & H2 & H3 & H4 & H5).
  destruct (loadView_state path x t) as (G1 & G2 & G3 & G4 & G5).
  split; [by etrans|]. split; [intros Hall; by rewrite G2, H2|].
  split; [congruence|]. split; [congruence|].
  intros Hne n view. specialize (H5 Hne).
  destruct G5 as [->|(w & Hw & ->)]; [apply H5|].
  rewrite lookup_insert. case_decide; [by intros [= <-] | apply H5].
Qed.

(** X6. After a successful load the stored path is the loaded file, and
    the stored version is the declared one, which is neither -404 nor below
    the minimum version. *)
Theorem load_postcondition path s s' :
  loadFile' path s = (Ok tt, s') ->
  exists doc root,
    load_file path = Pugi.ParseOk doc
    /\ Pugi.find_child "theme" doc = Some root
    /\ mPath (self s') = path
    /\ mVersion (self s')
       = text_as_float' (Pugi.child root "version") (F32.of_int (-404))
    /\ F32.eqb (mVersion (self s')) (F32.of_int (-404)) = false
    /\ F32.ltb (mVersion (self s')) (F32.of_int MINIMUM_THEME_VERSION) = false.
Proof.
  intros Hrun. destruct (fs_exists path) eqn:Hex.
  2:{ unfold loadFile in Hrun. unfold_M. simpl in Hrun. by rewrite Hex in Hrun. }
  destruct (load_file path) as [doc|d] eqn:Hload.
  2:{ unfold loadFile in Hrun. unfold_M. simpl in Hrun.
      by rewrite Hex, Hload in Hrun. }
  destruct (Pugi.find_child "theme" doc) as [root|] eqn:Hroot.
  2:{ unfold loadFile in Hrun. unfold_M. simpl in Hrun.
      by rewrite Hex, Hload, Hroot in Hrun. }
  exists doc, root. split; [done|]. split; [done|].
  rewrite (loadFile_doc _ _ _ _ Hex Hload Hroot) in Hrun. cbv zeta in Hrun.
  destruct (F32.eqb _ _) eqn:Hne; [discriminate|].
  destruct (F32.ltb _ _) eqn:Hlt; [discriminate|].
  apply views_loop in Hrun as (Hp & Hv & _). simpl in Hp, Hv.
  rewrite Hv. done.
Qed.

(** X7. No load ever stores an empty view: when the stored views are all
    non-empty before [loadFile], they are after it, whether it returns or
    throws; and once the file exists they are in any case, the views of the
    previous load having been cleared. *)
Theorem stored_views_never_empty path s :
  (views_nonempty (self s) -> views_nonempty (self (snd (loadFile' path s))))
  /\ (fs_exists path = true -> views_nonempty (self (snd (loadFile' path s)))).
Proof.
  assert (fs_exists path = true -> views_nonempty (self (snd (loadFile' path s))))
    as Hclear.
  { intros Hex. unfold loadFile. unfold_M. simpl. rewrite Hex. simpl.
    destruct (load_file path) as [doc|d]; [|by intros n view; simpl].
    destruct (Pugi.find_child "theme" doc) as [root|]; [|by intros n view; simpl].
    simpl. destruct (F32.eqb _ _); [by intros n view; simpl|].
    destruct (F32.ltb _ _); [by intros n view; simpl|].
    match goal with
    | |- views_nonempty (self (snd (for_each _ ?l _ ?t))) =>
        destruct (views_loop_state path l t) as (_ & _ & _ & _ & H)
    end.
    apply H. by intros n view. }
  split; [|done]. intros Hne. destruct (fs_exists path) eqn:Hex; [by apply Hclear|].
  unfold loadFile. unfold_M. simpl. by rewrite Hex.
Qed.

Lemma loadView_quiet path node s :
  view_paths_exist' (mPath (self s)) node = true ->
  log (snd (loadView' path node tt s)) = log s.
Proof.
  intros Hall. unfold loadView. unfold_M.
  destruct (Pugi.attribute node "name"); [|done].
  pose proof (parseView_quiet node s Hall) as H.
  destruct (parseView' node s) as [[view|e] s1]; [|done].
  by destruct (decide (0 < size (elements view))).
Qed.

Lemma views_loop_quiet path l s :
  forallb (view_paths_exist' (mPath (self s))) l = true ->
  log (snd (for_each (loadView' path) l tt s)) = log s.
Proof.
  intros Hall.
  apply (for_each_state (loadView' path)
           (fun t => mPath (self t) = mPath (self s) /\ log t = log s)); [|done].
  intros x [] t Hx [Hp Hlog].
  destruct (loadView_state path x t) as (_ & _ & Hp' & _). split; [congruence|].
  rewrite loadView_quiet; [done|]. rewrite Hp.
  rewrite forallb_forall in Hall. apply Hall. by apply list_elem_of_In.
Qed.

(** X8. A load only ever appends to the log, whatever its outcome, and it
    appends nothing when the file of every path property in the views of
    the document exists (nor when the load does not get as far as the
    views). *)
Theorem load_only_appends_warnings path s :
  let after :=
    snd (loadFile strtod istream_hex fs_exists load_file getHomePath parent_path
           path s) in
  log s `prefix_of` log after
  /\ ((forall doc root,
         load_file path = Pugi.ParseOk doc ->
         Pugi.find_child "theme" doc = Some root ->
         forallb (view_paths_exist fs_exists getHomePath parent_path path)
                 (Pugi.children_named root "view") = true) ->
      log after = log s).
Proof.
  cbv zeta. unfold loadFile. unfold_M. simpl.
  destruct (fs_exists path); simpl; [|done].
  destruct (load_file path) as [doc|d] eqn:Hload; [|done].
  destruct (Pugi.find_child "theme" doc) as [root|] eqn:Hroot; [|done].
  simpl. destruct (F32.eqb _ _); [done|].
  destruct (F32.ltb _ _); [done|].
  match goal with
  | |- context [for_each _ ?l _ ?t] =>
      destruct (views_loop_state path l t) as (H1 & _);
      pose proof (views_loop_quiet path l t) as H2
  end.
  split; [done|]. intros Hall. apply H2. exact (Hall doc root eq_refl Hroot).
Qed.

(** *** What a load throws *)

Lemma parseProperty_Throw root typeMap node element s e s' :
  parseProperty' root typeMap node element s = (Throw e, s') ->
  prefixed_or_color (mPath (self s)) e.
Proof.
  intros Hrun. pose proof (parseProperty_fst root typeMap node element s) as Hf.
  rewrite Hrun in Hf. simpl in Hf.
  destruct (typeMap !! Pugi.name node) as [ty|]; [|simplify_eq; by left].
  destruct (value_of' (mPath (self s)) ty node) as [v|e'] eqn:Hv; simplify_eq.
  unfold value_of in Hv. destruct ty; try discriminate.
  - destruct (CStr.find " " _); simplify_eq. by left.
  - unfold getHexColor in Hv.
    destruct (String.length _ =? 6)%nat eqn:H6, (String.length _ =? 8)%nat eqn:H8;
      simpl in Hv; simplify_eq.
    right. eexists. split; [done|]. by apply Nat.eqb_neq in H6, H8.
Qed.

Lemma parseElement_Throw root typeMap s e s' :
  parseElement' root typeMap s = (Throw e, s') ->
  prefixed_or_color (mPath (self s)) e.
Proof.
  unfold parseElement. intros Hrun.
  apply (for_each_Throw_inv _ (fun t => mPath (self t) = mPath (self s))) in Hrun
    as (x & a1 & s1 & _ & Hp & Hstep); [| |done].
  - rewrite <- Hp. eauto using parseProperty_Throw.
  - intros x a t a' t' Ht Hstep.
    apply parseProperty_Ok in Hstep as (_ & _ & _ & _ & _ & Hself). congruence.
Qed.

Lemma parseView_Throw root s e s' :
  parseView' root s = (Throw e, s') ->
  prefixed_or_color (mPath (self s)) e.
Proof.
  unfold parseView. intros Hrun.
  apply (for_each_Throw_inv _ (fun t => mPath (self t) = mPath (self s))) in Hrun
    as (x & a1 & s1 & _ & Hp & Hstep); [| |done].
  - rewrite <- Hp. revert Hstep. unfold parseViewChild. unfold_M. simpl.
    destruct (Pugi.attribute x "name"); [|intros [= <- _]; by left].
    destruct (sElementMap !! Pugi.name x) as [typeMap|]; [|intros [= <- _]; by left].
    destruct (parseElement' x typeMap s1) as [[el|e'] t] eqn:Hel; [discriminate|].
    intros [= <- _]. eauto using parseElement_Throw.
  - intros x a t a' t' Ht Hstep.
    apply parseViewChild_Ok in Hstep as (_ & typeMap & el & _ & _ & Hel & _).
    apply parseElement_Ok in Hel as [_ Hself]. congruence.
Qed.

(** X9. Every exception that leaves [loadFile] carries the prefix naming
    the loaded file, with one exception: the bad-length error of a colour,
    which carries no prefix at all.  The "Empty color" error never leaves a
    load. *)
Theorem load_errors_prefixed path s e :
  fst (loadFile' path s) = Throw e ->
  (exc_file e = Some path
   \/ exists str,
        e = error_bare (InvalidColorLength str)
        /\ String.length str <> 6 /\ String.length str <> 8)
  /\ exc_what e <> EmptyColor.
Proof.
  intros Hrun. assert (prefixed_or_color path e) as Hpc.
  { revert Hrun. unfold loadFile. unfold_M. simpl.
    destruct (fs_exists path); simpl; [|intros [= <-]; by left].
    destruct (load_file path) as [doc|d]; [|intros [= <-]; by left].
    destruct (Pugi.find_child "theme" doc) as [root|]; [|intros [= <-]; by left].
    simpl. destruct (F32.eqb _ _); [intros [= <-]; by left|].
    destruct (F32.ltb _ _); [intros [= <-]; by left|].
    destruct (for_each _ _ _ _) as [[[]|e0] s'] eqn:Hloop; [discriminate|].
    intros [= ->].
    apply (for_each_Throw_inv _ (fun t => mPath (self t) = path)) in Hloop
      as (x & [] & s1 & _ & Hp & Hstep); [| |done].
    - revert Hstep. unfold loadView. unfold_M.
      destruct (Pugi.attribute x "name"); [|intros [= <- _]; by left].
      destruct (parseView' x s1) as [[view|e'] t] eqn:Hview.
      + by destruct (decide (0 < size (elements view))).
      + intros [= <- _]. rewrite <- Hp. eauto using parseView_Throw.
    - intros x [] t [] t' Ht Hstep.
      destruct (loadView_state path x t) as (_ & _ & Hp & _).
      rewrite Hstep in Hp. simpl in Hp. congruence. }
  destruct Hpc as [[Hf Hw]|(str & -> & H6 & H8)].
  - split; [by left | done].
  - split; [right; by exists str | done].
Qed.

(** *** More places where a load stops *)

(** [parseElement] throws what its loop body throws on the first property
    child that is not acceptable. *)
Lemma parseElement_Throw_at root typeMap ps1 p ps2 ex s :
  Pugi.children root = (ps1 ++ p :: ps2)%list ->
  forallb (valid_property typeMap) ps1 = true ->
  (forall el t, mPath (self t) = mPath (self s) ->
     parseProperty' root typeMap p el t = (Throw ex, t)) ->
  exists s', parseElement' root typeMap s = (Throw ex, s').
Proof.
  intros Hch Hvalid Hthrow. unfold parseElement. rewrite Hch.
  edestruct (valid_properties_Ok root typeMap ps1 Hvalid) as (el1 & s1 & H1).
  exists s1. eapply for_each_Throw_at; [exact H1|].
  apply Hthrow. by apply properties_loop in H1 as (-> & _).
Qed.

(** No schema of the registry declares a property with an empty name. *)
Lemma schema_no_empty_name tag typeMap :
  sElementMap !! tag = Some typeMap -> typeMap !! "" = None.
Proof.
  intros H. apply elem_of_list_to_map_2 in H.
  repeat (apply elem_of_cons in H as [H|H]; [by simplify_eq|]).
  by apply elem_of_nil in H.
Qed.

(** X10. During a load that has passed the document-level checks and has
    accepted every view before it, a [view] node without a [name]
    attribute makes the load throw the view-missing-name error; and in a
    named view, after accepted children, a child without a [name]
    attribute makes it throw the element-missing-name error carrying the
    child's tag, which for character data placed directly in the view is
    the empty string. *)
Theorem missing_names_abort_load path s doc root vs1 v vs2 :
  fs_exists path = true ->
  load_file path = Pugi.ParseOk doc ->
  Pugi.find_child "theme" doc = Some root ->
  let version := text_as_float' (Pugi.child root "version") (F32.of_int (-404)) in
  F32.eqb version (F32.of_int (-404)) = false ->
  F32.ltb version (F32.of_int MINIMUM_THEME_VERSION) = false ->
  Pugi.children_named root "view" = (vs1 ++ v :: vs2)%list ->
  forallb valid_view vs1 = true ->
  (Pugi.attribute v "name" = None ->
     fst (loadFile' path s) = Throw (error_in path ViewMissingName))
  /\ (is_Some (Pugi.attribute v "name") ->
      forall es1 e es2,
        Pugi.children v = (es1 ++ e :: es2)%list ->
        forallb valid_element es1 = true ->
        (Pugi.attribute e "name" = None ->
           fst (loadFile' path s)
           = Throw (error_in path (ElementMissingName (Pugi.name e))))
        /\ (Pugi.is_text_node e = true ->
              fst (loadFile' path s) = Throw (error_in path (ElementMissingName "")))).
Proof.
  intros Hex Hload Hroot version Hne Hlt Hviews Hvs1. split.
  - intros Hnone.
    rewrite (loadFile_doc _ _ _ _ Hex Hload Hroot). cbv zeta. fold version.
    rewrite Hne, Hlt, Hviews.
    destruct (valid_views_Ok path vs1 Hvs1 (opened path version s)) as (s1 & H1).
    erewrite for_each_Throw_at; [reflexivity | exact H1 |].
    unfold loadView. by rewrite Hnone.
  - intros Hv es1 e es2 Hch Hes1.
    assert (Pugi.attribute e "name" = None ->
            fst (loadFile' path s)
            = Throw (error_in path (ElementMissingName (Pugi.name e)))) as Hgen.
    { intros Hnone. eapply loadFile_Throw_at; try done.
      intros t Ht. eapply parseView_Throw_at; try done.
      intros view t1 Ht1. exists t1.
      unfold parseViewChild. unfold_M. simpl. rewrite Hnone. congruence. }
    split; [done|]. intros Htext.
    destruct e as [nm attrs cs|txt|txt]; [discriminate|by apply Hgen..].
Qed.

(** X11. During a load that has passed the document-level checks and has
    accepted everything before it, in a named element of a registered type:
    a colour whose text has neither 6 nor 8 characters makes the load throw
    the bad-length error (without file prefix); a pair whose text holds no
    space makes it throw the invalid-pair error; and character data placed
    directly in the element makes it throw the unknown-property error with
    an empty property name. *)
Theorem invalid_values_abort_load path s doc root vs1 v vs2 es1 e es2 typeMap ps1 p ps2 :
  fs_exists path = true ->
  load_file path = Pugi.ParseOk doc ->
  Pugi.find_child "theme" doc = Some root ->
  let version := text_as_float' (Pugi.child root "version") (F32.of_int (-404)) in
  F32.eqb version (F32.of_int (-404)) = false ->
  F32.ltb version (F32.of_int MINIMUM_THEME_VERSION) = false ->
  Pugi.children_named root "view" = (vs1 ++ v :: vs2)%list ->
  forallb valid_view vs1 = true ->
  is_Some (Pugi.attribute v "name") ->
  Pugi.children v = (es1 ++ e :: es2)%list ->
  forallb valid_element es1 = true ->
  is_Some (Pugi.attribute e "name") ->
  sElementMap !! Pugi.name e = Some typeMap ->
  Pugi.children e = (ps1 ++ p :: ps2)%list ->
  forallb (valid_property typeMap) ps1 = true ->
  let str := Pugi.text_as_string (Some p) in
  (typeMap !! Pugi.name p = Some COLOR ->
   String.length str <> 6 -> String.length str <> 8 ->
     fst (loadFile' path s) = Throw (error_bare (InvalidColorLength str)))
  /\ (typeMap !! Pugi.name p = Some NORMALIZED_PAIR ->
      CStr.contains " " str = false ->
        fst (loadFile' path s) = Throw (error_in path (InvalidNormalizedPair str)))
  /\ (Pugi.is_text_node p = true ->
        fst (loadFile' path s)
        = Throw (error_in path (UnknownPropertyType "" (Pugi.name e)))).
Proof.
  intros Hex Hload Hroot version Hne Hlt Hviews Hvs1 Hv Hch Hes1 [a Ha] Hty Hps Hps1 str.
  assert (forall ex,
            (forall el t, mPath (self t) = path ->
               parseProperty' e typeMap p el t = (Throw ex, t)) ->
            fst (loadFile' path s) = Throw ex) as Hgen.
  { intros ex Hthrow. eapply loadFile_Throw_at; try done.
    intros t Ht. eapply parseView_Throw_at; try done.
    intros view t1 Ht1.
    destruct (parseElement_Throw_at e typeMap ps1 p ps2 ex t1 Hps Hps1) as (t2 & H2).
    { intros el t2 Ht2. apply Hthrow. congruence. }
    exists t2. unfold parseViewChild. unfold_M. simpl. by rewrite Ha, Hty, H2. }
  split; [|split].
  - intros Hcolor H6 H8. apply Hgen. intros el t Ht.
    unfold parseProperty. unfold_M. simpl. rewrite Hcolor. fold str.
    unfold getHexColor. apply Nat.eqb_neq in H6, H8. by rewrite H6, H8.
  - intros Hpair Hspace. apply Hgen. intros el t Ht.
    unfold parseProperty. unfold_M. simpl. rewrite Hpair. fold str.
    apply find_contains in Hspace. by rewrite Hspace, Ht.
  - intros Htext. apply Hgen. intros el t Ht.
    rewrite parseProperty_unknown, Ht.
    + by destruct p.
    + destruct p; [discriminate|eauto using schema_no_empty_name..].
Qed.

(** *** Which views a load stores *)

(** One successful step of the loop over the views, in terms of
    [view_of]. *)
Lemma loadView_Ok_view_of path node s s' :
  loadView' path node tt s = (Ok tt, s') ->
  exists view,
    view_of' (mPath (self s)) node = Ok view
    /\ mPath (self s') = mPath (self s)
    /\ mViews (self s')
       = if decide (0 < size (elements view))
         then <[name_attr node := view]> (mViews (self s))
         else mViews (self s).
Proof.
  intros Hstep.
  apply loadView_Ok in Hstep as (a & view & t & _ & Hview & Ht & ->).
  exists view. split.
  { by rewrite <- parseView_view_of, Hview. }
  destruct (decide (0 < size (elements view))); simpl; by rewrite Ht.
Qed.

Lemma views_loop_dom path l :
  forall s s',
  for_each (loadView' path) l tt s = (Ok tt, s') ->
  forall n,
    is_Some (mViews (self s') !! n)
    <-> is_Some (mViews (self s) !! n)
        \/ exists x view,
             x ∈ l /\ name_attr x = n
             /\ view_of' (mPath (self s)) x = Ok view
             /\ 0 < size (elements view).
Proof.
  induction l as [|x l IH]; intros s s' Hrun n.
  - simpl in Hrun. unfold ret in Hrun. simplify_eq. split; [by left|].
    intros [H|(x & view & Hx & _)]; [done | by apply elem_of_nil in Hx].
  - rewrite for_each_cons in Hrun.
    apply bind_Ok_inv in Hrun as ([] & s1 & H1 & H2).
    apply loadView_Ok_view_of in H1 as (view & Hview & Hp & Hm).
    rewrite (IH _ _ H2 n), Hm, Hp. split.
    + intros [H|(y & w & Hy & Hn & Hw & Hpos)].
      * destruct (decide (0 < size (elements view))) as [Hpos|Hpos]; [|by left].
        rewrite lookup_insert in H. case_decide as Hx; [|by left].
        right. exists x, view. split; [by left | done].
      * right. exists y, w. split; [by right | done].
    + intros [H|(y & w & Hy & Hn & Hw & Hpos)].
      * left. destruct (decide (0 < size (elements view))); [|done].
        rewrite lookup_insert. case_decide; [by eexists | done].
      * apply elem_of_cons in Hy as [->|Hy].
        -- left. rewrite Hview in Hw. simplify_eq.
           rewrite decide_True by done. rewrite lookup_insert_eq. by eexists.
        -- right. by exists y, w.
Qed.

Lemma views_loop_keep path l n :
  forall s s',
  for_each (loadView' path) l tt s = (Ok tt, s') ->
  (forall x, x ∈ l -> name_attr x = n ->
     exists w, view_of' (mPath (self s)) x = Ok w /\ size (elements w) = 0) ->
  mViews (self s') !! n = mViews (self s) !! n.
Proof.
  induction l as [|x l IH]; intros s s' Hrun Hempty.
  - simpl in Hrun. unfold ret in Hrun. by simplify_eq.
  - rewrite for_each_cons in Hrun.
    apply bind_Ok_inv in Hrun as ([] & s1 & H1 & H2).
    apply loadView_Ok_view_of in H1 as (view & Hview & Hp & Hm).
    rewrite (IH _ _ H2).
    2:{ intros y Hy Hn. rewrite Hp. apply Hempty; [by right | done]. }
    rewrite Hm. destruct (decide (0 < size (elements view))) as [Hpos|Hpos]; [|done].
    apply lookup_insert_ne. intros Hn.
    destruct (Hempty x ltac:(by left) Hn) as (w & Hw & Hzero).
    rewrite Hview in Hw. simplify_eq. lia.
Qed.

(** X12. After a successful load a name is a key of the view mapping
    exactly when some [view] node of the document carries that name and
    yielded at least one element; view nodes sharing a name share the entry,
    whatever the previous load had stored. *)
Theorem stored_view_names path s s' doc root :
  fs_exists path = true ->
  load_file path = Pugi.ParseOk doc ->
  Pugi.find_child "theme" doc = Some root ->
  loadFile' path s = (Ok tt, s') ->
  forall n,
    is_Some (mViews (self s') !! n)
    <-> exists x view,
          x ∈ Pugi.children_named root "view"
          /\ name_attr x = n
          /\ view_of' path x = Ok view
          /\ 0 < size (elements view).
Proof.
  intros Hex Hload Hroot Hrun n.
  rewrite (loadFile_doc _ _ _ _ Hex Hload Hroot) in Hrun. cbv zeta in Hrun.
  destruct (F32.eqb _ _); [discriminate|].
  destruct (F32.ltb _ _); [discriminate|].
  rewrite (views_loop_dom _ _ _ _ Hrun n). simpl. rewrite lookup_empty. split.
  - intros [[? [=]]|H]; done.
  - intros H. by right.
Qed.

(** X13. Of the [view] nodes sharing a name, the last one that yielded an
    element is the one stored: after a successful load, a view node with at
    least one element, followed only by view nodes that have another name or
    yield no element, is what the mapping holds under its name. *)
Theorem last_nonempty_view_wins path s s' doc root vs1 v vs2 view :
  fs_exists path = true ->
  load_file path = Pugi.ParseOk doc ->
  Pugi.find_child "theme" doc = Some root ->
  loadFile' path s = (Ok tt, s') ->
  Pugi.children_named root "view" = (vs1 ++ v :: vs2)%list ->
  view_of' path v = Ok view ->
  0 < size (elements view) ->
  (forall x, x ∈ vs2 -> name_attr x = name_attr v ->
     exists w, view_of' path x = Ok w /\ size (elements w) = 0) ->
  mViews (self s') !! name_attr v = Some view.
Proof.
  intros Hex Hload Hroot Hrun Hviews Hview Hpos Hlater.
  rewrite (loadFile_doc _ _ _ _ Hex Hload Hroot) in Hrun. cbv zeta in Hrun.
  destruct (F32.eqb _ _); [discriminate|].
  destruct (F32.ltb _ _); [discriminate|].
  rewrite Hviews, for_each_app in Hrun.
  apply bind_Ok_inv in Hrun as ([] & s1 & H1 & Hrun).
  rewrite for_each_cons in Hrun.
  apply bind_Ok_inv in Hrun as ([] & s2 & H2 & H3).
  apply views_loop in H1 as (Hp1 & _). simpl in Hp1.
  apply loadView_Ok_view_of in H2 as (w & Hw & Hp2 & Hm).
  rewrite Hp1, Hview in Hw. assert (w = view) as -> by congruence.
  rewrite (views_loop_keep _ _ _ _ _ H3).
  - rewrite Hm, decide_True by done. apply lookup_insert_eq.
  - intros x Hx Hn. rewrite Hp2, Hp1. by apply Hlater.
Qed.

(** X14. The version gate has no upper bound and lets through what does
    not compare: a document whose version reads as NaN or as +infinity, and
    whose views are acceptable, loads, and that value is the stored
    version. *)
Theorem unordered_version_accepted path s doc root :
  fs_exists path = true ->
  load_file path = Pugi.ParseOk doc ->
  Pugi.find_child "theme" doc = Some root ->
  let version := text_as_float' (Pugi.child root "version") (F32.of_int (-404)) in
  version = S754_nan \/ version = S754_infinity false ->
  forallb valid_view (Pugi.children_named root "view") = true ->
  fst (loadFile' path s) = Ok tt
  /\ mVersion (self (snd (loadFile' path s))) = version.
Proof.
  intros Hex Hload Hroot version Hv Hvalid.
  rewrite (loadFile_doc _ _ _ _ Hex Hload Hroot). cbv zeta. fold version.
  assert (F32.eqb version (F32.of_int (-404)) = false
          /\ F32.ltb version (F32.of_int MINIMUM_THEME_VERSION) = false) as [-> ->].
  { by destruct Hv as [-> | ->]. }
  destruct (valid_views_Ok path _ Hvalid (opened path version s)) as (s' & Hrun).
  rewrite Hrun. split; [done|]. simpl.
  apply views_loop in Hrun as (_ & Hkeep & _). by rewrite Hkeep.
Qed.

(** *** Resolving paths *)

(** X15. [resolvePath] on a non-null token, by its characters: the token
    [~], or one starting with [~/], becomes the home directory followed by
    what comes after the [~]; the token [.], or one starting with [./],
    becomes the parent directory of the theme file followed by what comes
    after the [.]; every other token, the empty one and those starting
    with [..], [.name] or [~name] included, is returned as it is. *)
Theorem resolvePath_by_characters (s relative : string) :
  (s = "~" \/ (exists r, s = String "~" (String "/" r)) ->
     resolvePath' (Some s) relative
     = Returns (getHomePath ++ CStr.advance s)%string)
  /\ (s = "." \/ (exists r, s = String "." (String "/" r)) ->
      resolvePath' (Some s) relative
      = Returns (parent_path relative ++ CStr.advance s)%string)
  /\ (s <> "~" -> s <> "." ->
      (forall r, s <> String "~" (String "/" r)) ->
      (forall r, s <> String "." (String "/" r)) ->
      resolvePath' (Some s) relative = Returns s).
Proof.
  destruct (resolvePath_cases s relative) as (_ & Hhome & Hdot & Hother).
  split; [|split].
  - intros H. apply Hhome. by apply (first_element_char "~").
  - intros H. apply Hdot. by apply (first_element_char ".").
  - intros H1 H2 H3 H4. apply Hother.
    + intros H. apply first_element_char in H; [|done].
      destruct H as [?|[r ?]]; [done | by eapply H3].
    + intros H. apply first_element_char in H; [|done].
      destruct H as [?|[r ?]]; [done | by eapply H4].
Qed.

Lemma first_element_of_absolute (c : ascii) (a b : string) :
  BoostFs.is_separator c = false ->
  CStr.first_char a = "/"%char ->
  BoostFs.first_element (a ++ b) <> String c "".
Proof.
  intros Hc Ha H. apply first_element_char in H; [|done].
  destruct a as [|a0 a']; [simpl in Ha; discriminate|].
  simpl in Ha. subst a0.
  destruct H as [H|[r H]]; cbv [String.append] in H; fold String.append in H;
    injection H as <- _; by vm_compute in Hc.
Qed.

(** X16. When the home directory and the parent directory of the theme
    file are absolute, resolving is idempotent: what [resolvePath] returns
    for a token is returned unchanged when it is resolved again. *)
Theorem resolvePath_idempotent (s relative : string) :
  CStr.first_char getHomePath = "/"%char ->
  CStr.first_char (parent_path relative) = "/"%char ->
  resolvePath' (Some (resolvePath_str' s relative)) relative
  = resolvePath' (Some s) relative.
Proof.
  intros Hhome Hparent.
  destruct (resolvePath_cases s relative) as (Hempty & Hh & Hd & Hother).
  destruct (resolvePath_cases (resolvePath_str' s relative) relative)
    as (_ & _ & _ & Hstable).
  unfold resolvePath in *.
  destruct (decide (BoostFs.first_element s = "~")) as [H1|H1].
  { specialize (Hh H1). injection Hh as Hh. rewrite Hstable; rewrite Hh; [done|..];
      by apply first_element_of_absolute. }
  destruct (decide (BoostFs.first_element s = ".")) as [H2|H2].
  { specialize (Hd H2). injection Hd as Hd. rewrite Hstable; rewrite Hd; [done|..];
      by apply first_element_of_absolute. }
  specialize (Hother H1 H2). injection Hother as Hother.
  rewrite Hstable; by rewrite Hother.
Qed.

(** *** The warnings of a load *)

Lemma parseProperty_Ok_log root typeMap node element s element' s' :
  parseProperty' root typeMap node element s = (Ok element', s') ->
  log s' = (log s ++ property_warnings' (mPath (self s)) typeMap node)%list.
Proof.
  unfold parseProperty, property_warnings. unfold_M. simpl.
  destruct (typeMap !! Pugi.name node) as [[]|]; simpl; try discriminate.
  - case_call CStr.find; [|discriminate]. intros [= _ <-]. by rewrite app_nil_r.
  - destruct (fs_exists _); simpl; intros [= _ <-]; [by rewrite app_nil_r | done].
  - intros [= _ <-]. by rewrite app_nil_r.
  - case_call getHexColor; [|discriminate]. intros [= _ <-]. by rewrite app_nil_r.
  - intros [= _ <-]. by rewrite app_nil_r.
  - intros [= _ <-]. by rewrite app_nil_r.
Qed.

Lemma properties_loop_log root typeMap l :
  forall element s element' s',
  for_each (parseProperty' root typeMap) l element s = (Ok element', s') ->
  log s' = (log s ++ flat_map (property_warnings' (mPath (self s)) typeMap) l)%list.
Proof.
  induction l as [|x l IH]; intros element s element' s' Hrun.
  - simpl in Hrun. unfold ret in Hrun. simplify_eq. by rewrite app_nil_r.
  - rewrite for_each_cons in Hrun.
    apply bind_Ok_inv in Hrun as (e1 & s1 & H1 & H2).
    pose proof (parseProperty_Ok_log _ _ _ _ _ _ _ H1) as Hlog.
    apply parseProperty_Ok in H1 as (_ & _ & _ & _ & _ & Hself).
    apply IH in H2. rewrite H2, Hlog, Hself. simpl. by rewrite app_assoc.
Qed.

Lemma elements_loop_log l :
  forall view s view' s',
  for_each parseViewChild' l view s = (Ok view', s') ->
  log s' = (log s ++ flat_map (element_warnings' (mPath (self s))) l)%list.
Proof.
  induction l as [|x l IH]; intros view s view' s' Hrun.
  - simpl in Hrun. unfold ret in Hrun. simplify_eq. by rewrite app_nil_r.
  - rewrite for_each_cons in Hrun.
    apply bind_Ok_inv in Hrun as (v1 & s1 & H1 & H2).
    apply parseViewChild_Ok in H1 as (a & typeMap & el & _ & Hty & Hel & _).
    pose proof (properties_loop_log _ _ _ _ _ _ _ Hel) as Hlog.
    apply parseElement_Ok in Hel as [_ Hself].
    apply IH in H2. rewrite H2, Hlog, Hself. simpl.
    unfold element_warnings at 2. rewrite Hty. by rewrite app_assoc.
Qed.

Lemma views_loop_log path l :
  forall s s',
  for_each (loadView' path) l tt s = (Ok tt, s') ->
  log s' = (log s ++ flat_map (view_warnings' (mPath (self s))) l)%list.
Proof.
  induction l as [|x l IH]; intros s s' Hrun.
  - simpl in Hrun. unfold ret in Hrun. simplify_eq. by rewrite app_nil_r.
  - rewrite for_each_cons in Hrun.
    apply bind_Ok_inv in Hrun as ([] & s1 & H1 & H2).
    apply loadView_Ok in H1 as (a & view & t & _ & Hview & Ht & ->).
    apply elements_loop_log in Hview.
    apply IH in H2. rewrite H2. simpl.
    destruct (decide (0 < size (elements view))); simpl;
      rewrite Hview, Ht; by rewrite app_assoc.
Qed.

(** X19. A successful load logs exactly one warning for every path
    property whose resolved file does not exist, in document order, and
    nothing else; this includes the properties of views that are not stored
    because they hold no element or are replaced by a later view of the same
    name. *)
Theorem load_warnings path s s' doc root :
  fs_exists path = true ->
  load_file path = Pugi.ParseOk doc ->
  Pugi.find_child "theme" doc = Some root ->
  loadFile' path s = (Ok tt, s') ->
  log s'
  = (log s ++ flat_map (view_warnings' path) (Pugi.children_named root "view"))%list.
Proof.
  intros Hex Hload Hroot Hrun.
  rewrite (loadFile_doc _ _ _ _ Hex Hload Hroot) in Hrun. cbv zeta in Hrun.
  destruct (F32.eqb _ _); [discriminate|].
  destruct (F32.ltb _ _); [discriminate|].
  by apply views_loop_log in Hrun.
Qed.

(** X20. A property child without character data: for a string or a
    path the element handed on holds the empty string under the child's
    name, for a float it holds 0 and for a boolean false, its flag and its
    other properties being untouched, and no error is raised; a colour
    raises the bad-length error and a pair the invalid-pair error, both for
    the empty text. *)
Theorem empty_property root typeMap node element s ty :
  Pugi.text (Some node) = None ->
  typeMap !! Pugi.name node = Some ty ->
  let stores v :=
    exists element',
      fst (parseProperty' root typeMap node element s) = Ok element'
      /\ properties element' !! Pugi.name node = Some v
      /\ extra element' = extra element
      /\ forall n, n <> Pugi.name node ->
           properties element' !! n = properties element !! n in
  match ty with
  | STRING | PATH => stores (VString "")
  | FLOAT => stores (VFloat F32.zero)
  | BOOLEAN => stores (VBool false)
  | COLOR =>
      fst (parseProperty' root typeMap node element s)
      = Throw (error_bare (InvalidColorLength ""))
  | NORMALIZED_PAIR =>
      fst (parseProperty' root typeMap node element s)
      = Throw (error_in (mPath (self s)) (InvalidNormalizedPair ""))
  end.
Proof.
  intros Htext Hty stores. subst stores. cbv beta.
  rewrite parseProperty_fst, Hty.
  unfold value_of, Pugi.text_as_string, Pugi.text_get, text_as_float, Pugi.text_as_bool.
  rewrite Htext.
  destruct ty; try reflexivity;
    (eexists; split; [reflexivity|]; simpl;
     split; [apply lookup_insert_eq|]; split; [done|];
     intros n Hn; by apply lookup_insert_ne).
Qed.

End Properties.

(** ** The files the paths of a theme point to *)

Section AssetExistence.

Variable strtod : string -> spec_float.
Variable istream_hex : string -> Z.
Variable load_file : string -> Pugi.xml_parse_result.
Variable getHomePath : string.
Variable parent_path : string -> string.
(** Two file systems. *)
Variable fs1 fs2 : string -> bool.

Local Abbreviation parseProperty1 :=
  (parseProperty strtod istream_hex fs1 getHomePath parent_path).
Local Abbreviation parseProperty2 :=
  (parseProperty strtod istream_hex fs2 getHomePath parent_path).
Local Abbreviation parseElement1 :=
  (parseElement strtod istream_hex fs1 getHomePath parent_path).
Local Abbreviation parseElement2 :=
  (parseElement strtod istream_hex fs2 getHomePath parent_path).
Local Abbreviation parseViewChild1 :=
  (parseViewChild strtod istream_hex fs1 getHomePath parent_path).
Local Abbreviation parseViewChild2 :=
  (parseViewChild strtod istream_hex fs2 getHomePath parent_path).
Local Abbreviation parseView1 :=
  (parseView strtod istream_hex fs1 getHomePath parent_path).
Local Abbreviation parseView2 :=
  (parseView strtod istream_hex fs2 getHomePath parent_path).
Local Abbreviation loadView1 :=
  (loadView strtod istream_hex fs1 getHomePath parent_path).
Local Abbreviation loadView2 :=
  (loadView strtod istream_hex fs2 getHomePath parent_path).

Lemma parseElement_any_fs root typeMap s1 s2 :
  same_theme s1 s2 ->
  fst (parseElement1 root typeMap s1) = fst (parseElement2 root typeMap s2)
  /\ same_theme (snd (parseElement1 root typeMap s1)) (snd (parseElement2 root typeMap s2)).
Proof.
  unfold parseElement. apply for_each_related2. clear s1 s2.
  intros x a s1 s2 HR. unfold same_theme in *.
  rewrite !parseProperty_fst, !parseProperty_self, HR. done.
Qed.

Lemma parseViewChild_any_fs node view s1 s2 :
  same_theme s1 s2 ->
  fst (parseViewChild1 node view s1) = fst (parseViewChild2 node view s2)
  /\ same_theme (snd (parseViewChild1 node view s1)) (snd (parseViewChild2 node view s2)).
Proof.
  intros HR. unfold parseViewChild. unfold_M. simpl.
  pose proof HR as HR'. unfold same_theme in HR'. rewrite HR'.
  destruct (Pugi.attribute node "name"); [|done].
  destruct (sElementMap !! Pugi.name node) as [typeMap|]; [|done].
  destruct (parseElement_any_fs node typeMap s1 s2 HR) as [Hf Hs].
  destruct (parseElement1 node typeMap s1) as [r1 t1].
  destruct (parseElement2 node typeMap s2) as [r2 t2].
  simpl in Hf, Hs. subst r2. by destruct r1.
Qed.

Lemma loadView_any_fs path node s1 s2 :
  same_theme s1 s2 ->
  fst (loadView1 path node tt s1) = fst (loadView2 path node tt s2)
  /\ same_theme (snd (loadView1 path node tt s1)) (snd (loadView2 path node tt s2)).
Proof.
  intros HR. unfold loadView. unfold_M.
  destruct (Pugi.attribute node "name"); [|done].
  destruct (for_each_related2 parseViewChild1 parseViewChild2 same_theme
              (Pugi.children node) parseViewChild_any_fs {| elements := ∅ |} s1 s2 HR)
    as [Hf Hs].
  unfold parseView.
  destruct (for_each parseViewChild1 _ _ s1) as [r1 t1].
  destruct (for_each parseViewChild2 _ _ s2) as [r2 t2].
  simpl in Hf, Hs. subst r2. destruct r1 as [view|e]; [|done].
  destruct (decide (0 < size (elements view))); [|done].
  unfold same_theme in *. simpl. by rewrite Hs.
Qed.

(** X17. Whether the files that the paths of a theme point to exist has no
    influence on a load: on two file systems that agree on the theme file
    itself, [loadFile] returns or throws the same and leaves the same theme
    object, so that they can only differ in the warnings logged. *)
Theorem asset_existence_irrelevant path s :
  fs1 path = fs2 path ->
  fst (loadFile strtod istream_hex fs1 load_file getHomePath parent_path path s)
  = fst (loadFile strtod istream_hex fs2 load_file getHomePath parent_path path s)
  /\ self (snd (loadFile strtod istream_hex fs1 load_file getHomePath parent_path path s))
     = self (snd (loadFile strtod istream_hex fs2 load_file getHomePath parent_path path s)).
Proof.
  intros Hfs. unfold loadFile. unfold_M. simpl. rewrite Hfs.
  destruct (fs2 path); simpl; [|done].
  destruct (load_file path) as [doc|d]; [|done].
  destruct (Pugi.find_child "theme" doc) as [root|]; [|done].
  simpl. destruct (F32.eqb _ _); [done|].
  destruct (F32.ltb _ _); [done|].
  apply (for_each_related2 (loadView1 path) (loadView2 path) same_theme).
  - intros x [] t1 t2. apply loadView_any_fs.
  - done.
Qed.

End AssetExistence.

(** ** The statements on concrete documents *)

Module Concrete.

Import Examples.

(** C3 on the tokens [ff8800], [ff8800cc] and [fff]. *)
Lemma getHexColor_spec_witness :
  getHexColor Reference.istream_hex (Some "ff8800") = Ok 4287103231%Z
  /\ getHexColor Reference.istream_hex (Some "ff8800cc") = Ok 4287103180%Z
  /\ getHexColor Reference.istream_hex (Some "fff")
     = Throw (error_bare (InvalidColorLength "fff")).
Proof.
  destruct (getHexColor_spec Reference.istream_hex) as (_ & Hbad & H6 & H8).
  split; [|split].
  - destruct (H6 "ff8800" eq_refl) as (v & Hv & _ & _ & _ & Hsmall).
    rewrite Hv. f_equal. apply Hsmall. vm_compute. split; [discriminate | reflexivity].
  - apply (H8 "ff8800cc" eq_refl).
  - apply Hbad; simpl; lia.
Defined.

(** [resolvePath] on non-null tokens, for the theme file
    [/themes/simple/theme.xml] and the home directory [/home/pi]: a leading
    [.] or [~] path element is replaced, a name that merely starts with
    that character is not. *)
Lemma resolvePath_examples :
  let resolve tok := resolvePath home Reference.parent_path (Some tok) theme_path in
  resolve "./logo.png" = Returns "/themes/simple/logo.png"
  /\ resolve "~/art/logo.png" = Returns "/home/pi/art/logo.png"
  /\ resolve ".hidden/logo.png" = Returns ".hidden/logo.png"
  /\ resolve "~backup/logo.png" = Returns "~backup/logo.png"
  /\ resolve "/usr/share/logo.png" = Returns "/usr/share/logo.png"
  /\ resolve "" = Returns "".
Proof. repeat split; reflexivity. Qed.

(** C4 on the property [<pos>0.5 0.25</pos>] of the image [logo]: what the
    loop body hands on and what [parseElement] returns hold the pair
    (0.5, 0.25) under [pos]. *)
Lemma normalized_pair_spec_witness :
  image_schema !! "pos" = Some NORMALIZED_PAIR
  /\ (exists element',
        parse_property logo image_schema pos_node empty_element = (Ok element', fresh)
        /\ properties element' !! "pos"
           = Some (VVector2f (S754_finite false 8388608 (-24))
                             (S754_finite false 8388608 (-25))))
  /\ (exists el,
        fst (parse_element logo image_schema fresh) = Ok el
        /\ properties el !! "pos"
           = Some (VVector2f (S754_finite false 8388608 (-24))
                             (S754_finite false 8388608 (-25)))).
Proof.
  split; [reflexivity|].
  destruct (normalized_pair_spec Reference.strtod Reference.istream_hex all_exist home
              Reference.parent_path logo image_schema pos_node empty_element fresh
              eq_refl) as (_ & _ & H).
  destruct (H eq_refl eq_refl eq_refl) as [Hbody Hwhole].
  split; [exact Hbody|].
  destruct (parse_element logo image_schema fresh) as [r s'] eqn:Hrun.
  assert (exists el, r = Ok el) as [el ->].
  { apply (f_equal fst) in Hrun. vm_compute in Hrun. subst r. by eexists. }
  exists el. split; [reflexivity|].
  apply (Hwhole [] (tail (Pugi.children logo)) el s' eq_refl); [|exact Hrun].
  intros x Hx. apply list_elem_of_In in Hx. simpl in Hx.
  destruct Hx as [<-|[<-|[]]]; discriminate.
Defined.

(** C8 on an image that sets [tile] to true and then to false. *)
Lemma duplicate_property_last_wins_witness :
  exists el s',
    parseElement Reference.strtod Reference.istream_hex all_exist home
                 Reference.parent_path tile_twice image_schema fresh = (Ok el, s')
    /\ properties el !! "tile" = Some (VBool false).
Proof.
  destruct (duplicate_property_last_wins Reference.strtod Reference.istream_hex
              all_exist home Reference.parent_path
              tile_twice image_schema fresh [] tile_true [] tile_false [])
    as (el & s' & ty & v & Hrun & Hty & Hv & Hel).
  - reflexivity.
  - reflexivity.
  - intros x Hx. by apply elem_of_nil in Hx.
  - reflexivity.
  - exists el, s'. split; [exact Hrun|].
    change (Pugi.name tile_false) with "tile" in *.
    assert (ty = BOOLEAN) as -> by (vm_compute in Hty; congruence).
    vm_compute in Hv. congruence.
Defined.

(** C1 (amended) on a theme object that had loaded a theme before. *)
Lemma load_failure_state_witness :
  all_exist theme_path = true
  /\ load no_root_doc loaded = load no_root_doc ThemeData_new.
Proof.
  split; [reflexivity|].
  apply (proj1 (proj2 (load_failure_state Reference.strtod Reference.istream_hex
           all_exist (fun _ => Pugi.ParseOk no_root_doc) home Reference.parent_path
           theme_path {| self := loaded; log := [] |}))).
  reflexivity.
Defined.

(** C1 as stated fails: the document has no [theme] root, the load throws,
    and the views and the version loaded before are gone. *)
Lemma load_failure_discards_previous :
  fst (load no_root_doc loaded) = Throw (error_in theme_path MissingThemeTag)
  /\ mViews (self (snd (load no_root_doc loaded))) <> mViews loaded
  /\ mVersion (self (snd (load no_root_doc loaded))) <> mVersion loaded.
Proof.
  split; [reflexivity|]. split.
  - intros Heq. apply (f_equal (fun m => m !! "system")) in Heq.
    vm_compute in Heq. discriminate.
  - vm_compute. discriminate.
Qed.

(** C2 (amended) on themes of version 3 and of version 2. *)
Lemma version_gate_witness :
  fst (load basic_doc ThemeData_new) = Ok tt
  /\ fst (load [old_root] ThemeData_new)
     = Throw (error_in theme_path (VersionTooOld (F32.of_int 2) 3)).
Proof.
  split.
  - destruct (version_gate Reference.strtod Reference.istream_hex all_exist
                (fun _ => Pugi.ParseOk basic_doc) home Reference.parent_path
                theme_path fresh basic_doc basic_root eq_refl eq_refl eq_refl)
      as (_ & H).
    destruct (H (Pugi.PCData "3") eq_refl) as (_ & H3).
    apply H3; reflexivity.
  - destruct (version_gate Reference.strtod Reference.istream_hex all_exist
                (fun _ => Pugi.ParseOk [old_root]) home Reference.parent_path
                theme_path fresh [old_root] old_root eq_refl eq_refl eq_refl)
      as (_ & H).
    destruct (H (Pugi.PCData "2") eq_refl) as (H2 & _).
    apply H2; reflexivity.
Defined.

(** C2 as stated fails: the declared version -404 is below 3, and the load
    reports a missing version tag instead of a version that is too old. *)
Lemma version_below_minimum_reported_missing :
  Pugi.child sentinel_root "version" = Some sentinel_version
  /\ F32.ltb (F32.of_double (Reference.strtod "-404")) (F32.of_int 3) = true
  /\ fst (load sentinel_doc ThemeData_new)
     = Throw (error_in theme_path (VersionTagMissing 3))
  /\ fst (load sentinel_doc ThemeData_new)
     <> Throw (error_in theme_path
                 (VersionTooOld (F32.of_double (Reference.strtod "-404")) 3)).
Proof.
  split; [reflexivity|]. split; [reflexivity|]. split; [reflexivity|].
  vm_compute. discriminate.
Qed.

(** C10 on a theme declaring version -404. *)
Lemma version_sentinel_collision_witness :
  Pugi.child sentinel_root "version" = Some sentinel_version
  /\ fst (load sentinel_doc ThemeData_new)
     = Throw (error_in theme_path (VersionTagMissing CURRENT_THEME_VERSION)).
Proof.
  split; [reflexivity|].
  apply (version_sentinel_collision Reference.strtod Reference.istream_hex all_exist
           (fun _ => Pugi.ParseOk sentinel_doc) home Reference.parent_path
           theme_path fresh sentinel_doc sentinel_root sentinel_version
           (Pugi.PCData "-404"));
    reflexivity.
Defined.

(** C6 (amended) on a view holding a named [gauge], and on an image holding
    a [colour] property. *)
Lemma unknown_tags_abort_load_witness :
  sElementMap !! "gauge" = None
  /\ image_schema !! "colour" = None
  /\ fst (load [named_unknown_root] ThemeData_new)
     = Throw (error_in theme_path (UnknownElement "gauge"))
  /\ fst (load [unknown_property_root] ThemeData_new)
     = Throw (error_in theme_path (UnknownPropertyType "colour" "image")).
Proof.
  split; [reflexivity|]. split; [reflexivity|]. split.
  - refine (proj1 (unknown_tags_abort_load Reference.strtod Reference.istream_hex
             all_exist (fun _ => Pugi.ParseOk [named_unknown_root]) home
             Reference.parent_path theme_path fresh [named_unknown_root]
             named_unknown_root [] named_unknown_view [] [] named_gauge []
             eq_refl eq_refl eq_refl eq_refl eq_refl eq_refl eq_refl
             (ex_intro _ "basic" eq_refl) eq_refl eq_refl
             (ex_intro _ "fuel" eq_refl)) eq_refl).
  - refine (proj2 (unknown_tags_abort_load Reference.strtod Reference.istream_hex
             all_exist (fun _ => Pugi.ParseOk [unknown_property_root]) home
             Reference.parent_path theme_path fresh [unknown_property_root]
             unknown_property_root [] unknown_property_view [] [] tinted_image []
             eq_refl eq_refl eq_refl eq_refl eq_refl eq_refl eq_refl
             (ex_intro _ "basic" eq_refl) eq_refl eq_refl
             (ex_intro _ "logo" eq_refl))
             image_schema [tile_true] colour_node [] eq_refl eq_refl eq_refl eq_refl).
Defined.

(** C6 as stated fails: the only child of the view has the unregistered tag
    [gauge] and no [name], and the load throws the missing-name error
    instead of the unknown-element error. *)
Lemma unknown_tag_without_name :
  sElementMap !! "gauge" = None
  /\ fst (load unnamed_unknown_doc ThemeData_new)
     = Throw (error_in theme_path (ElementMissingName "gauge"))
  /\ fst (load unnamed_unknown_doc ThemeData_new)
     <> Throw (error_in theme_path (UnknownElement "gauge")).
Proof.
  split; [reflexivity|]. split; [reflexivity|]. vm_compute. discriminate.
Qed.

(** C7 (amended) on a theme whose single view holds one image. *)
Lemma view_stored_iff_nonempty_witness :
  exists view,
    view_of Reference.strtod Reference.istream_hex all_exist home
            Reference.parent_path theme_path basic_view = Ok view
    /\ (mViews (self (snd (load basic_doc ThemeData_new))) !! "basic" = Some view
        <-> 0 < size (elements view))
    /\ (mViews (self (snd (load basic_doc ThemeData_new))) !! "basic" = None
        <-> size (elements view) = 0).
Proof.
  apply (view_stored_iff_nonempty Reference.strtod Reference.istream_hex all_exist
           (fun _ => Pugi.ParseOk basic_doc) home Reference.parent_path
           theme_path fresh (snd (load basic_doc ThemeData_new))
           basic_doc basic_root [] basic_view []).
  - reflexivity.
  - reflexivity.
  - reflexivity.
  - reflexivity.
  - intros x Hx. by apply elem_of_nil in Hx.
  - reflexivity.
Defined.

(** C7 as stated fails: the load succeeds; the first view node named
    [basic] yields an element, and the mapping does not hold the view parsed
    from it; the third view node named [basic] yields no element, and
    [basic] is a key of the mapping all the same. *)
Lemma same_name_views_break_iff :
  fst (load shared_name_doc ThemeData_new) = Ok tt
  /\ Pugi.children_named shared_name_root "view" = [click_view; beep_view; empty_view]
  /\ (exists view,
        view_of Reference.strtod Reference.istream_hex all_exist home
                Reference.parent_path theme_path click_view = Ok view
        /\ 0 < size (elements view)
        /\ mViews (self (snd (load shared_name_doc ThemeData_new))) !! name_attr click_view
           <> Some view)
  /\ (exists view,
        view_of Reference.strtod Reference.istream_hex all_exist home
                Reference.parent_path theme_path empty_view = Ok view
        /\ size (elements view) = 0
        /\ is_Some (mViews (self (snd (load shared_name_doc ThemeData_new)))
                      !! name_attr empty_view)).
Proof.
  split; [reflexivity|]. split; [reflexivity|]. split.
  - eexists. split; [reflexivity|]. split.
    + vm_compute. lia.
    + intros Heq.
      apply (f_equal (fun o => v ← o; Some (bool_decide (is_Some (elements v !! "click")))))
        in Heq.
      vm_compute in Heq. discriminate.
  - eexists. split; [reflexivity|]. split; [reflexivity|].
    vm_compute. eauto.
Qed.

(** C9 on a theme whose single view holds one image: the value stored
    for [pos] of the image [logo] in the view [basic]. *)
Lemma stored_tag_matches_schema_witness :
  exists view el val ty,
    mViews (self (snd (load basic_doc ThemeData_new))) !! "basic" = Some view
    /\ elements view !! "logo" = Some el
    /\ properties el !! "pos" = Some val
    /\ image_schema !! "pos" = Some ty
    /\ has_type val ty.
Proof.
  pose proof (stored_tag_matches_schema Reference.strtod Reference.istream_hex
                all_exist (fun _ => Pugi.ParseOk basic_doc) home
                Reference.parent_path theme_path fresh
                (snd (load basic_doc ThemeData_new)) basic_doc basic_root
                eq_refl eq_refl eq_refl eq_refl) as H.
  destruct (mViews (self (snd (load basic_doc ThemeData_new))) !! "basic")
    as [view|] eqn:Hview; [|vm_compute in Hview; discriminate].
  destruct (elements view !! "logo") as [el|] eqn:Hel;
    [|vm_compute in Hview; injection Hview as <-; vm_compute in Hel; discriminate].
  destruct (properties el !! "pos") as [val|] eqn:Hval;
    [|vm_compute in Hview; injection Hview as <-;
      vm_compute in Hel; injection Hel as <-; vm_compute in Hval; discriminate].
  destruct (H "basic" view Hview) as (vnode & Hin & _ & Helements).
  apply list_elem_of_singleton in Hin as ->.
  destruct (Helements "logo" el Hel) as (enode & typeMap & Hin & _ & Hty & Hprops).
  apply list_elem_of_singleton in Hin as ->.
  destruct (Hprops "pos" val Hval) as (ty & Hpos & Htag).
  exists view, el, val, ty. split; [done|]. split; [done|]. split; [done|].
  split; [|done]. unfold image_schema.
  change (Pugi.name logo) with "image" in Hty. by rewrite Hty.
Defined.

End Concrete.

(** ** The schema registry *)

(** X18. The registry is consistent across element types: a property name
    declared by two element types has the same property type in both, so a
    property can be read by its name alone. *)
Theorem registry_types_agree tag1 tag2 typeMap1 typeMap2 n ty1 ty2 :
  sElementMap !! tag1 = Some typeMap1 ->
  sElementMap !! tag2 = Some typeMap2 ->
  typeMap1 !! n = Some ty1 ->
  typeMap2 !! n = Some ty2 ->
  ty1 = ty2.
Proof.
  intros H1 H2 H3 H4.
  apply elem_of_list_to_map_2 in H1, H2.
  repeat (apply elem_of_cons in H1 as [H1|H1]; [injection H1 as -> ->|]);
    [..|by apply elem_of_nil in H1];
    (repeat (apply lookup_insert_Some in H3 as [[<- <-]|[_ H3]]);
       [..|by rewrite lookup_empty in H3]);
    (repeat (apply elem_of_cons in H2 as [H2|H2]; [injection H2 as -> ->|]);
       [..|by apply elem_of_nil in H2]);
    vm_compute in H4; congruence.
Qed.

(** ** Further statements on concrete documents *)

Module More.

Import Examples.

(** X1 on the view of the basic theme, on a file system that holds the
    theme file and the logo and nothing else. *)
Lemma parseView_leaves_theme_witness :
  view_paths_exist theme_and_logo home Reference.parent_path theme_path basic_view = true
  /\ self (snd (parseView Reference.strtod Reference.istream_hex theme_and_logo home
                          Reference.parent_path basic_view at_theme)) = self at_theme
  /\ log (snd (parseView Reference.strtod Reference.istream_hex theme_and_logo home
                         Reference.parent_path basic_view at_theme)) = log at_theme.
Proof.
  split; [reflexivity|].
  destruct (parseView_leaves_theme Reference.strtod Reference.istream_hex
              theme_and_logo home Reference.parent_path basic_view at_theme)
    as (H1 & _ & H3).
  split; [exact H1|]. apply H3. reflexivity.
Defined.

(** X2 on the image of the basic theme. *)
Lemma parseElement_shape_witness :
  exists el,
    fst (parse_element logo image_schema at_theme) = Ok el
    /\ extra el = false
    /\ Element.has el "tile" = true
    /\ Element.has el "origin" = false.
Proof.
  destruct (parse_element logo image_schema at_theme) as [r s'] eqn:Hrun.
  assert (exists el, r = Ok el) as [el ->].
  { apply (f_equal fst) in Hrun. vm_compute in Hrun. subst r. by eexists. }
  destruct (parseElement_shape Reference.strtod Reference.istream_hex all_exist
              home Reference.parent_path logo image_schema at_theme el s' Hrun)
    as (Hextra & _ & Hkeys).
  exists el. split; [done|]. split; [exact Hextra|]. split.
  - apply Hkeys. exists (Pugi.Element "tile" [] [Pugi.PCData "true"]).
    split; [|reflexivity]. apply list_elem_of_In. right. right. left. reflexivity.
  - destruct (Element.has el "origin") eqn:Hhas; [|done].
    apply Hkeys in Hhas as (x & Hx & Hname).
    apply list_elem_of_In in Hx. simpl in Hx.
    destruct Hx as [<-|[<-|[<-|[]]]]; discriminate.
Defined.

(** X3 on the image of the basic theme: [pos] read as a vector, as a
    string, and the absent [origin]. *)
Lemma typed_get_after_parse_witness :
  exists el v,
    fst (parse_element logo image_schema at_theme) = Ok el
    /\ Element.get Element.TVector2f el "pos" = Element.Got v
    /\ Element.get Element.TString el "pos" = Element.bad_get
    /\ Element.get Element.TVector2f el "origin" = Element.out_of_range.
Proof.
  destruct (parse_element logo image_schema at_theme) as [r s'] eqn:Hrun.
  assert (exists el, r = Ok el /\ Element.has el "pos" = true
                     /\ Element.has el "origin" = false) as (el & -> & Hpos & Horigin).
  { apply (f_equal fst) in Hrun. vm_compute in Hrun. subst r.
    eexists. split; [done|]. split; reflexivity. }
  pose proof (typed_get_after_parse Reference.strtod Reference.istream_hex all_exist
                home Reference.parent_path logo image_schema at_theme el s' Hrun) as H.
  destruct (H "pos") as [_ Hget]. destruct (Hget Hpos) as (ty & v & Hty & Hgot & Hbad).
  assert (ty = NORMALIZED_PAIR) as -> by (vm_compute in Hty; congruence).
  exists el, v. split; [done|]. split; [exact Hgot|]. split.
  - by apply Hbad.
  - destruct (H "origin") as [Hout _]. by apply Hout.
Defined.

(** X4 on a view with two sounds named [click]: the second one is stored. *)
Lemma parseView_last_element_wins_witness :
  exists view el,
    fst (parse_view two_clicks_view at_theme) = Ok view
    /\ elements view !! "click" = Some el
    /\ properties el !! "path" = Some (VString "/themes/simple/b.ogg")
    /\ is_Some (elements view !! "click").
Proof.
  destruct (parse_view two_clicks_view at_theme) as [r s'] eqn:Hrun.
  assert (exists view, r = Ok view) as [view ->].
  { apply (f_equal fst) in Hrun. vm_compute in Hrun. subst r. by eexists. }
  destruct (parseView_last_element_wins Reference.strtod Reference.istream_hex
              all_exist home Reference.parent_path two_clicks_view at_theme view s' Hrun)
    as (Hkeys & Hlast).
  destruct (Hlast [click_a] click_b [] eq_refl) as (typeMap & el & Hty & Hel & Hstored).
  { intros x Hx. by apply elem_of_nil in Hx. }
  exists view, el. split; [done|]. split; [exact Hstored|]. split.
  - assert (typeMap = default ∅ (sElementMap !! "sound")) as ->.
    { change (Pugi.name click_b) with "sound" in Hty. by rewrite Hty. }
    vm_compute in Hel. injection Hel as <-. reflexivity.
  - apply Hkeys. exists click_a. split; [|reflexivity].
    apply list_elem_of_In. left. reflexivity.
Defined.

(** X5 on the basic theme. *)
Lemma load_succeeds_iff_witness :
  fst (load basic_doc ThemeData_new) = Ok tt.
Proof.
  apply (load_succeeds_iff Reference.strtod Reference.istream_hex all_exist
           (fun _ => Pugi.ParseOk basic_doc) home Reference.parent_path
           theme_path fresh).
  split; [reflexivity|]. exists basic_doc, basic_root. repeat split; reflexivity.
Defined.

(** X6 on the basic theme. *)
Lemma load_postcondition_witness :
  mPath (self (snd (load basic_doc loaded))) = theme_path
  /\ mVersion (self (snd (load basic_doc loaded))) = F32.of_int 3.
Proof.
  destruct (load_postcondition Reference.strtod Reference.istream_hex all_exist
              (fun _ => Pugi.ParseOk basic_doc) home Reference.parent_path
              theme_path {| self := loaded; log := [] |}
              (snd (load basic_doc loaded)) eq_refl)
    as (doc & root & Hload & Hroot & Hpath & Hversion & _).
  split; [exact Hpath|]. rewrite Hversion.
  injection Hload as <-. injection Hroot as <-. reflexivity.
Defined.

(** X7 on a document with an empty view and on a document that fails. *)
Lemma stored_views_never_empty_witness :
  views_nonempty (self (snd (load shared_name_doc loaded)))
  /\ views_nonempty (self (snd (load unnamed_unknown_doc loaded))).
Proof.
  split.
  - apply (stored_views_never_empty Reference.strtod Reference.istream_hex all_exist
             (fun _ => Pugi.ParseOk shared_name_doc) home Reference.parent_path
             theme_path {| self := loaded; log := [] |}).
    reflexivity.
  - apply (stored_views_never_empty Reference.strtod Reference.istream_hex all_exist
             (fun _ => Pugi.ParseOk unnamed_unknown_doc) home Reference.parent_path
             theme_path {| self := loaded; log := [] |}).
    reflexivity.
Defined.

(** X8 on the basic theme, on a file system that holds the theme file and
    the logo and nothing else. *)
Lemma load_only_appends_warnings_witness :
  theme_and_logo "/themes/simple/other.png" = false
  /\ forallb (view_paths_exist theme_and_logo home Reference.parent_path theme_path)
             (Pugi.children_named basic_root "view") = true
  /\ log (snd (load_on theme_and_logo basic_doc {| self := loaded; log := [] |})) = [].
Proof.
  split; [reflexivity|]. split; [reflexivity|].
  apply (load_only_appends_warnings Reference.strtod Reference.istream_hex
           theme_and_logo (fun _ => Pugi.ParseOk basic_doc) home Reference.parent_path
           theme_path {| self := loaded; log := [] |}).
  intros doc root [= <-] [= <-]. reflexivity.
Defined.

(** X9 on a theme with a three-digit colour, and on a theme without root. *)
Lemma load_errors_prefixed_witness :
  fst (load short_color_doc ThemeData_new)
  = Throw (error_bare (InvalidColorLength "fff"))
  /\ fst (load no_root_doc ThemeData_new) = Throw (error_in theme_path MissingThemeTag)
  /\ (exists str,
        error_bare (InvalidColorLength "fff") = error_bare (InvalidColorLength str)
        /\ String.length str <> 6 /\ String.length str <> 8)
  /\ exc_file (error_in theme_path MissingThemeTag) = Some theme_path.
Proof.
  split; [reflexivity|]. split; [reflexivity|]. split.
  - destruct (load_errors_prefixed Reference.strtod Reference.istream_hex all_exist
                (fun _ => Pugi.ParseOk short_color_doc) home Reference.parent_path
                theme_path fresh (error_bare (InvalidColorLength "fff")) eq_refl)
      as [[Hfile|Hcolor] _]; [discriminate | exact Hcolor].
  - destruct (load_errors_prefixed Reference.strtod Reference.istream_hex all_exist
                (fun _ => Pugi.ParseOk no_root_doc) home Reference.parent_path
                theme_path fresh (error_in theme_path MissingThemeTag) eq_refl)
      as [[Hfile|(str & Hstr & _)] _]; [exact Hfile | discriminate].
Defined.

(** X10 on a view without name, on an image without name, and on
    character data in a view. *)
Lemma missing_names_abort_load_witness :
  fst (load [nameless_view_root] ThemeData_new)
  = Throw (error_in theme_path ViewMissingName)
  /\ fst (load [unnamed_image_root] ThemeData_new)
     = Throw (error_in theme_path (ElementMissingName "image"))
  /\ fst (load [stray_text_root] ThemeData_new)
     = Throw (error_in theme_path (ElementMissingName "")).
Proof.
  split; [|split].
  - refine (proj1 (missing_names_abort_load Reference.strtod Reference.istream_hex
             all_exist (fun _ => Pugi.ParseOk [nameless_view_root]) home
             Reference.parent_path theme_path fresh [nameless_view_root]
             nameless_view_root [] nameless_view []
             eq_refl eq_refl eq_refl eq_refl eq_refl eq_refl eq_refl) eq_refl).
  - refine (proj1 (proj2 (missing_names_abort_load Reference.strtod Reference.istream_hex
             all_exist (fun _ => Pugi.ParseOk [unnamed_image_root]) home
             Reference.parent_path theme_path fresh [unnamed_image_root]
             unnamed_image_root [] unnamed_image_view []
             eq_refl eq_refl eq_refl eq_refl eq_refl eq_refl eq_refl)
             (ex_intro _ "basic" eq_refl) [] unnamed_image [] eq_refl eq_refl) eq_refl).
  - refine (proj2 (proj2 (missing_names_abort_load Reference.strtod Reference.istream_hex
             all_exist (fun _ => Pugi.ParseOk [stray_text_root]) home
             Reference.parent_path theme_path fresh [stray_text_root]
             stray_text_root [] stray_text_view []
             eq_refl eq_refl eq_refl eq_refl eq_refl eq_refl eq_refl)
             (ex_intro _ "basic" eq_refl) [] (Pugi.PCData "hello") [] eq_refl eq_refl)
             eq_refl).
Defined.

(** X11 on a three-digit colour, a one-number position, and character
    data in an image. *)
Lemma invalid_values_abort_load_witness :
  fst (load short_color_doc ThemeData_new)
  = Throw (error_bare (InvalidColorLength "fff"))
  /\ fst (load [lone_pos_root] ThemeData_new)
     = Throw (error_in theme_path (InvalidNormalizedPair "0.5"))
  /\ fst (load [stray_text_image_root] ThemeData_new)
     = Throw (error_in theme_path (UnknownPropertyType "" "image")).
Proof.
  split; [|split].
  - refine (proj1 (invalid_values_abort_load Reference.strtod Reference.istream_hex
             all_exist (fun _ => Pugi.ParseOk short_color_doc) home
             Reference.parent_path theme_path fresh short_color_doc
             short_color_root [] short_color_view [] [] short_color_text []
             text_schema [] short_color []
             eq_refl eq_refl eq_refl eq_refl eq_refl eq_refl eq_refl
             (ex_intro _ "basic" eq_refl) eq_refl eq_refl
             (ex_intro _ "title" eq_refl) eq_refl eq_refl eq_refl) eq_refl _ _);
      simpl; lia.
  - refine (proj1 (proj2 (invalid_values_abort_load Reference.strtod Reference.istream_hex
             all_exist (fun _ => Pugi.ParseOk [lone_pos_root]) home
             Reference.parent_path theme_path fresh [lone_pos_root]
             lone_pos_root [] lone_pos_view [] [] lone_pos_image []
             image_schema [] lone_pos []
             eq_refl eq_refl eq_refl eq_refl eq_refl eq_refl eq_refl
             (ex_intro _ "basic" eq_refl) eq_refl eq_refl
             (ex_intro _ "logo" eq_refl) eq_refl eq_refl eq_refl)) eq_refl eq_refl).
  - refine (proj2 (proj2 (invalid_values_abort_load Reference.strtod Reference.istream_hex
             all_exist (fun _ => Pugi.ParseOk [stray_text_image_root]) home
             Reference.parent_path theme_path fresh [stray_text_image_root]
             stray_text_image_root [] stray_text_image_view [] [] stray_text_image []
             image_schema [] (Pugi.PCData "hello") []
             eq_refl eq_refl eq_refl eq_refl eq_refl eq_refl eq_refl
             (ex_intro _ "basic" eq_refl) eq_refl eq_refl
             (ex_intro _ "logo" eq_refl) eq_refl eq_refl eq_refl)) eq_refl).
Defined.

(** X12 on the theme with three views named [basic]. *)
Lemma stored_view_names_witness :
  is_Some (mViews (self (snd (load shared_name_doc loaded))) !! "basic")
  /\ ~ is_Some (mViews (self (snd (load shared_name_doc loaded))) !! "system").
Proof.
  pose proof (stored_view_names Reference.strtod Reference.istream_hex all_exist
                (fun _ => Pugi.ParseOk shared_name_doc) home Reference.parent_path
                theme_path {| self := loaded; log := [] |}
                (snd (load shared_name_doc loaded)) shared_name_doc shared_name_root
                eq_refl eq_refl eq_refl eq_refl) as H.
  split.
  - apply H. eexists click_view, _. split.
    { apply list_elem_of_In. left. reflexivity. }
    split; [reflexivity|]. split; [reflexivity|]. vm_compute. lia.
  - intros Hsome. apply H in Hsome as (x & view & Hx & Hname & _).
    apply list_elem_of_In in Hx. simpl in Hx.
    destruct Hx as [<-|[<-|[<-|[]]]]; discriminate.
Defined.

(** X13 on the theme with three views named [basic]: the second one, the
    last with an element, is stored. *)
Lemma last_nonempty_view_wins_witness :
  exists view,
    view_of Reference.strtod Reference.istream_hex all_exist home
            Reference.parent_path theme_path beep_view = Ok view
    /\ mViews (self (snd (load shared_name_doc loaded))) !! "basic" = Some view.
Proof.
  eexists. split; [reflexivity|].
  apply (last_nonempty_view_wins Reference.strtod Reference.istream_hex all_exist
           (fun _ => Pugi.ParseOk shared_name_doc) home Reference.parent_path
           theme_path {| self := loaded; log := [] |}
           (snd (load shared_name_doc loaded)) shared_name_doc shared_name_root
           [click_view] beep_view [empty_view]).
  - reflexivity.
  - reflexivity.
  - reflexivity.
  - reflexivity.
  - reflexivity.
  - reflexivity.
  - vm_compute. lia.
  - intros x Hx _. apply list_elem_of_singleton in Hx as ->.
    eexists. split; reflexivity.
Defined.

(** X14 on the basic theme read with a [strtod] that returns NaN. *)
Lemma unordered_version_accepted_witness :
  fst (loadFile strtod_nan Reference.istream_hex all_exist
         (fun _ => Pugi.ParseOk basic_doc) home Reference.parent_path
         theme_path fresh) = Ok tt
  /\ mVersion (self (snd (loadFile strtod_nan Reference.istream_hex all_exist
                            (fun _ => Pugi.ParseOk basic_doc) home
                            Reference.parent_path theme_path fresh))) = S754_nan.
Proof.
  apply (unordered_version_accepted strtod_nan Reference.istream_hex all_exist
           (fun _ => Pugi.ParseOk basic_doc) home Reference.parent_path
           theme_path fresh basic_doc basic_root eq_refl eq_refl eq_refl).
  - left. reflexivity.
  - reflexivity.
Defined.

(** X15 on the tokens [~/art/logo.png], [./logo.png] and [../logo.png]. *)
Lemma resolvePath_by_characters_witness :
  resolvePath home Reference.parent_path (Some "~/art/logo.png") theme_path
  = Returns "/home/pi/art/logo.png"
  /\ resolvePath home Reference.parent_path (Some "./logo.png") theme_path
     = Returns "/themes/simple/logo.png"
  /\ resolvePath home Reference.parent_path (Some "../logo.png") theme_path
     = Returns "../logo.png".
Proof.
  split; [|split].
  - refine (proj1 (resolvePath_by_characters home Reference.parent_path
                     "~/art/logo.png" theme_path) _).
    right. by eexists.
  - refine (proj1 (proj2 (resolvePath_by_characters home Reference.parent_path
                            "./logo.png" theme_path)) _).
    right. by eexists.
  - refine (proj2 (proj2 (resolvePath_by_characters home Reference.parent_path
                            "../logo.png" theme_path)) _ _ _ _);
      try discriminate; intros r; discriminate.
Defined.

(** X16 on the token [./logo.png]. *)
Lemma resolvePath_idempotent_witness :
  resolvePath home Reference.parent_path (Some "/themes/simple/logo.png") theme_path
  = resolvePath home Reference.parent_path (Some "./logo.png") theme_path.
Proof.
  apply (resolvePath_idempotent home Reference.parent_path "./logo.png" theme_path);
    reflexivity.
Defined.

(** X17 on the basic theme, with every file present and with only the
    theme file present. *)
Lemma asset_existence_irrelevant_witness :
  fst (load_on all_exist basic_doc fresh) = fst (load_on only_theme basic_doc fresh)
  /\ self (snd (load_on all_exist basic_doc fresh))
     = self (snd (load_on only_theme basic_doc fresh)).
Proof.
  apply (asset_existence_irrelevant Reference.strtod Reference.istream_hex
           (fun _ => Pugi.ParseOk basic_doc) home Reference.parent_path
           all_exist only_theme theme_path fresh).
  reflexivity.
Defined.

(** X18 on [path], declared by [image] and by [sound]. *)
Lemma registry_types_agree_witness :
  image_schema !! "path" = default ∅ (sElementMap !! "sound") !! "path".
Proof.
  destruct (image_schema !! "path") as [ty1|] eqn:H1; [|vm_compute in H1; discriminate].
  destruct (default ∅ (sElementMap !! "sound") !! "path") as [ty2|] eqn:H2;
    [|vm_compute in H2; discriminate].
  f_equal.
  apply (registry_types_agree "image" "sound" image_schema
           (default ∅ (sElementMap !! "sound")) "path" ty1 ty2);
    [reflexivity | reflexivity | exact H1 | exact H2].
Defined.

(** X19 on the basic theme when only the theme file exists: the one path
    property gives the one warning. *)
Lemma load_warnings_witness :
  log (snd (load_on only_theme basic_doc fresh))
  = [{| warn_theme := theme_path;
        warn_token := "./logo.png";
        warn_resolved := "/themes/simple/logo.png" |}].
Proof.
  apply (load_warnings Reference.strtod Reference.istream_hex only_theme
           (fun _ => Pugi.ParseOk basic_doc) home Reference.parent_path
           theme_path fresh (snd (load_on only_theme basic_doc fresh))
           basic_doc basic_root); reflexivity.
Defined.

(** X20 on an empty [tile] and an empty [pos] of an image. *)
Lemma empty_property_witness :
  (exists element',
     fst (parse_property logo image_schema (Pugi.Element "tile" [] []) empty_element)
     = Ok element'
     /\ properties element' !! "tile" = Some (VBool false))
  /\ fst (parse_property logo image_schema (Pugi.Element "pos" [] []) empty_element)
     = Throw (error_in "" (InvalidNormalizedPair "")).
Proof.
  split.
  - destruct (empty_property Reference.strtod Reference.istream_hex all_exist home
                Reference.parent_path logo image_schema (Pugi.Element "tile" [] [])
                empty_element fresh BOOLEAN eq_refl eq_refl)
      as (element' & Hrun & Hlookup & _).
    by exists element'.
  - apply (empty_property Reference.strtod Reference.istream_hex all_exist home
             Reference.parent_path logo image_schema (Pugi.Element "pos" [] [])
             empty_element fresh NORMALIZED_PAIR); reflexivity.
Defined.

End More.
